(** * schema2api: the upload handler, the catch-all router and the
      dummy-data synthesizer of [main.go], embedded in Rocq.

    The Go program keeps one uploaded schema in a package variable and
    answers every request from it.  The embedding follows [main.go]
    function by function.  What the program takes from Go's standard
    library ([strings.Trim], [strings.Split], [strings.ToLower] with
    the parts of [unicode] and [unicode/utf8] under it, [strconv.Atoi],
    [encoding/json]) is modelled first, each in a module named after
    its package. *)

From Stdlib Require Import ZArith Ascii String List Floats.SpecFloat.
From stdpp Require Import gmap strings list fin_maps.

Open Scope string_scope.
Open Scope Z_scope.

(** ** Package [unicode/utf8] *)

Module Utf8.

Definition RuneError : Z := 0xFFFD.
Definition RuneSelf : Z := 0x80.
Definition MaxRune : Z := 0x10FFFF.

Definition surrogateMin : Z := 0xD800.
Definition surrogateMax : Z := 0xDFFF.

Definition tx : Z := 0x80.
Definition t2 : Z := 0xC0.
Definition t3 : Z := 0xE0.
Definition t4 : Z := 0xF0.

Definition maskx : Z := 0x3F.
Definition mask2 : Z := 0x1F.
Definition mask3 : Z := 0x0F.
Definition mask4 : Z := 0x07.

Definition rune1Max : Z := 0x7F.
Definition rune2Max : Z := 0x7FF.
Definition rune3Max : Z := 0xFFFF.

Definition locb : Z := 0x80.
Definition hicb : Z := 0xBF.

(** The entries of the table [first]: [xx] for a byte that starts no
    rune, [as] for an ASCII byte, [s1] to [s7] for the first byte of a
    longer rune (the low bits hold the size, the high bits the index
    into [acceptRanges]).  ([as] is a keyword of Rocq.) *)
Definition xx : Z := 0xF1.
Definition as_ : Z := 0xF0.
Definition s1 : Z := 0x02.
Definition s2 : Z := 0x13.
Definition s3 : Z := 0x03.
Definition s4 : Z := 0x23.
Definition s5 : Z := 0x34.
Definition s6 : Z := 0x04.
Definition s7 : Z := 0x44.

(** [first[b]], the table written as the ranges of its rows. *)
Definition first (b : Z) : Z :=
  if b <? 0x80 then as_
  else if b <? 0xC2 then xx
  else if b <? 0xE0 then s1
  else if b =? 0xE0 then s2
  else if b <? 0xED then s3
  else if b =? 0xED then s4
  else if b <? 0xF0 then s3
  else if b =? 0xF0 then s5
  else if b <? 0xF4 then s6
  else if b =? 0xF4 then s7
  else xx.

(** [acceptRanges[i]]: the range of the second byte. *)
Definition acceptRanges (i : Z) : Z * Z :=
  if i =? 0 then (locb, hicb)
  else if i =? 1 then (0xA0, hicb)
  else if i =? 2 then (locb, 0x9F)
  else if i =? 3 then (0x90, hicb)
  else if i =? 4 then (locb, 0x8F)
  else (0, 0).

(** A byte of a string as a number, and back. *)
Definition rune (c : ascii) : Z := Z.of_N (N_of_ascii c).
Definition byte (v : Z) : ascii := ascii_of_N (Z.to_N (Z.land v 0xFF)).

(** [utf8.DecodeRuneInString(s)]: the rune at the head of [s] and the
    number of bytes it takes; [(RuneError, 1)] for a byte sequence that
    is no encoding.  [for i, c := range s] reads the runes of a string
    the same way. *)
Definition DecodeRuneInString (s : string) : Z * nat :=
  match s with
  | EmptyString => (RuneError, 0%nat)
  | String c0 t0 =>
      let s0 := rune c0 in
      let x := first s0 in
      if as_ <=? x then
        (if x =? xx then RuneError else s0, 1%nat)
      else
        let sz := Z.land x 7 in
        let accept := acceptRanges (Z.shiftr x 4) in
        if Z.of_nat (String.length s) <? sz then (RuneError, 1%nat)
        else
          match t0 with
          | EmptyString => (RuneError, 1%nat)
          | String c1 t1 =>
              let s1 := rune c1 in
              if (s1 <? accept.1) || (accept.2 <? s1) then (RuneError, 1%nat)
              else if sz <=? 2 then
                (Z.lor (Z.shiftl (Z.land s0 mask2) 6) (Z.land s1 maskx), 2%nat)
              else
                match t1 with
                | EmptyString => (RuneError, 1%nat)
                | String c2 t2 =>
                    let s2 := rune c2 in
                    if (s2 <? locb) || (hicb <? s2) then (RuneError, 1%nat)
                    else if sz <=? 3 then
                      (Z.lor (Z.lor (Z.shiftl (Z.land s0 mask3) 12)
                                    (Z.shiftl (Z.land s1 maskx) 6))
                             (Z.land s2 maskx), 3%nat)
                    else
                      match t2 with
                      | EmptyString => (RuneError, 1%nat)
                      | String c3 _ =>
                          let s3 := rune c3 in
                          if (s3 <? locb) || (hicb <? s3) then (RuneError, 1%nat)
                          else
                            (Z.lor (Z.lor (Z.lor (Z.shiftl (Z.land s0 mask4) 18)
                                                 (Z.shiftl (Z.land s1 maskx) 12))
                                          (Z.shiftl (Z.land s2 maskx) 6))
                                   (Z.land s3 maskx), 4%nat)
                      end
                end
          end
  end.

(** [utf8.RuneLen(r)]: the number of bytes of the encoding of [r], -1
    for what is no rune. *)
Definition RuneLen (r : Z) : Z :=
  if r <? 0 then -1
  else if r <=? rune1Max then 1
  else if r <=? rune2Max then 2
  else if (surrogateMin <=? r) && (r <=? surrogateMax) then -1
  else if r <=? rune3Max then 3
  else if r <=? MaxRune then 4
  else -1.

(** The three bytes and the four bytes of a rune. *)
Definition encode3 (r : Z) : string :=
  String (byte (Z.lor t3 (Z.shiftr r 12)))
    (String (byte (Z.lor tx (Z.land (Z.shiftr r 6) maskx)))
       (String (byte (Z.lor tx (Z.land r maskx))) EmptyString)).

Definition encode4 (r : Z) : string :=
  String (byte (Z.lor t4 (Z.shiftr r 18)))
    (String (byte (Z.lor tx (Z.land (Z.shiftr r 12) maskx)))
       (String (byte (Z.lor tx (Z.land (Z.shiftr r 6) maskx)))
          (String (byte (Z.lor tx (Z.land r maskx))) EmptyString))).

(** [utf8.AppendRune(p, r)]: the bytes it appends to [p].  The tests
    of Go are on [uint32(r)]; for a rune, an [int32], [uint32(r) <= m]
    says [0 <= r <= m], and [uint32(r) > MaxRune] says [r < 0] or
    [r > MaxRune]. *)
Definition AppendRune (r : Z) : string :=
  if (0 <=? r) && (r <=? rune1Max) then String (byte r) EmptyString
  else if (0 <=? r) && (r <=? rune2Max) then
    String (byte (Z.lor t2 (Z.shiftr r 6)))
      (String (byte (Z.lor tx (Z.land r maskx))) EmptyString)
  else if (r <? 0) || (MaxRune <? r) || ((surrogateMin <=? r) && (r <=? surrogateMax)) then
    encode3 RuneError
  else if r <=? rune3Max then encode3 r
  else encode4 r.

End Utf8.

(** ** Package [unicode] *)

Module Unicode.

Definition MaxASCII : Z := 0x7F.

Section Tables.

(** [unicode.To(unicode.LowerCase, r)]: the lower case of [r] by the
    table [unicode.CaseRanges].  The table is data of Go's library;
    the development holds for every such table. *)
Variable lowerCase : Z -> Z.

(** [unicode.ToLower(r)]. *)
Definition ToLower (r : Z) : Z :=
  if r <=? MaxASCII then
    if (65 <=? r) && (r <=? 90) then r + (97 - 65) else r
  else lowerCase r.

End Tables.

(** The rows of [unicode.CaseRanges] below U+0100, as far as the lower
    case goes: the letters [A] to [Z], U+00C0 to U+00D6 and U+00D8 to
    U+00DE move by 32; every other rune stays.  Above U+00FF this is
    not Go's table: it is one table to run the examples on. *)
Definition latin1 (r : Z) : Z :=
  if ((0x41 <=? r) && (r <=? 0x5A)) || ((0xC0 <=? r) && (r <=? 0xD6))
     || ((0xD8 <=? r) && (r <=? 0xDE))
  then r + 32 else r.

End Unicode.

(** ** Package [strings] *)

Module Strings.

(** [trimLeftByte(s, c)]: drop the leading bytes equal to [c]. *)
Fixpoint trimLeftByte (s : string) (c : ascii) : string :=
  match s with
  | String a s' => if decide (a = c) then trimLeftByte s' c else s
  | EmptyString => EmptyString
  end.

(** [trimRightByte(s, c)]: drop the trailing bytes equal to [c]. *)
Fixpoint trimRightByte (s : string) (c : ascii) : string :=
  match s with
  | String a s' =>
      match trimRightByte s' c with
      | EmptyString => if decide (a = c) then EmptyString else String a EmptyString
      | t => String a t
      end
  | EmptyString => EmptyString
  end.

(** [strings.Trim(s, cutset)] for a cutset of one ASCII byte, the only
    form [main.go] calls: Go then runs
    [trimLeftByte(trimRightByte(s, cutset[0]), cutset[0])]. *)
Definition Trim (s : string) (cutset : ascii) : string :=
  trimLeftByte (trimRightByte s cutset) cutset.

(** [strings.Split(s, sep)] for a separator of one byte: the pieces of
    [s] between the occurrences of [sep]; one piece more than there
    are separators, so the empty string splits into one empty piece. *)
Fixpoint Split (s : string) (sep : ascii) : list string :=
  match s with
  | EmptyString => [EmptyString]
  | String a s' =>
      if decide (a = sep) then EmptyString :: Split s' sep
      else match Split s' sep with
           | seg :: rest => String a seg :: rest
           | [] => [String a EmptyString]
           end
  end.

(** ['A'..'Z'] move to ['a'..'z'], every other byte stays. *)
Definition lowerByte (c : ascii) : ascii :=
  let n := N_of_ascii c in
  if ((65 <=? n) && (n <=? 90))%N then ascii_of_N (n + 32) else c.

(** [s[n:]]. *)
Fixpoint from (n : nat) (s : string) : string :=
  match n, s with
  | S n', String _ s' => from n' s'
  | _, _ => s
  end.

Section Map.

Variable mapping : Z -> Z.

(** The second loop of [strings.Map]: [for _, c := range s], writing
    [mapping(c)] for every rune [c] unless it is negative.  [skip] is
    the number of bytes at the head of [s] that belong to the rune read
    last. *)
Fixpoint mapRunes (skip : nat) (s : string) : string :=
  match s with
  | EmptyString => EmptyString
  | String _ s' =>
      match skip with
      | S skip' => mapRunes skip' s'
      | O =>
          let '(c, width) := Utf8.DecodeRuneInString s in
          let r := mapping c in
          (if 0 <=? r then
             if r <? Utf8.RuneSelf then String (Utf8.byte r) EmptyString
             else Utf8.AppendRune r
           else EmptyString)
          +:+ mapRunes (width - 1) s'
      end
  end.

(** The first loop of [strings.Map], which looks for the first rune
    that [mapping] changes: [None] when the loop comes to the end of
    [s]; else what the buffer holds at the [break], [s[:i]] and
    the mapped rune, and the new [s], [s[i+width:]].  An invalid byte
    reads as [RuneError] of width 1 and counts as changed.  At the
    [break] the width of [RuneError] is the one
    [utf8.DecodeRuneInString(s[i:])] gives, which is how [range] read
    it; the width of any other rune is [utf8.RuneLen(c)]. *)
Fixpoint mapFirst (skip : nat) (s : string) : option (string * string) :=
  match s with
  | EmptyString => None
  | String a s' =>
      let continue (skip' : nat) :=
        match mapFirst skip' s' with
        | Some (b, rest) => Some (String a b, rest)
        | None => None
        end in
      match skip with
      | S skip' => continue skip'
      | O =>
          let '(c, width) := Utf8.DecodeRuneInString s in
          let r := mapping c in
          if (r =? c) && negb (c =? Utf8.RuneError) then continue (width - 1)%nat
          else if (c =? Utf8.RuneError) && negb (width =? 1)%nat && (r =? c) then
            continue (width - 1)%nat
          else
            let width :=
              if c =? Utf8.RuneError then width else Z.to_nat (Utf8.RuneLen c) in
            Some (if 0 <=? r then Utf8.AppendRune r else EmptyString,
                  from (width - 1) s')
      end
  end.

(** [strings.Map(mapping, s)]. *)
Definition Map (s : string) : string :=
  match mapFirst 0 s with
  | None => s
  | Some (b, rest) => b +:+ mapRunes 0 rest
  end.

End Map.

(** The first loop of [strings.ToLower]: [isASCII]. *)
Fixpoint isASCII (s : string) : bool :=
  match s with
  | EmptyString => true
  | String c s' => (Utf8.rune c <? Utf8.RuneSelf) && isASCII s'
  end.

(** The ASCII path of [strings.ToLower]: every byte in ['A'..'Z']
    moves by ['a' - 'A'], every other byte stays (so a string without
    such a byte, [hasUpper] false, is returned as it is). *)
Fixpoint lowerASCII (s : string) : string :=
  match s with
  | String c s' => String (lowerByte c) (lowerASCII s')
  | EmptyString => EmptyString
  end.

(** [strings.ToLower(s)], over the table [lowerCase] of package
    [unicode]. *)
Definition ToLower (lowerCase : Z -> Z) (s : string) : string :=
  if isASCII s then lowerASCII s
  else Map (Unicode.ToLower lowerCase) s.

End Strings.

(** ** Package [strconv] *)

Module Strconv.

(** The range of Go's [int] on the 64-bit targets the server is built
    for. *)
Definition minInt : Z := - 2 ^ 63.
Definition maxInt : Z := 2 ^ 63 - 1.

Definition digit (c : ascii) : option Z :=
  let n := Z.of_N (N_of_ascii c) in
  if (48 <=? n) && (n <=? 57) then Some (n - 48) else None.

(** The digit loop: [n = n*10 + int(ch - '0')], failing on a byte that
    is no decimal digit. *)
Fixpoint digits (n : Z) (s : string) : option Z :=
  match s with
  | EmptyString => Some n
  | String ch s' =>
      match digit ch with
      | Some d => digits (n * 10 + d) s'
      | None => None
      end
  end.

(** [strconv.Atoi(s)]: an optional sign, then one or more decimal
    digits, the value within the range of [int].  [None] stands for a
    non-nil [err] (syntax or range); the handlers only test
    [err != nil]. *)
Definition Atoi (s : string) : option Z :=
  let '(neg, s1) :=
    match s with
    | String "-"%char t => (true, t)
    | String "+"%char t => (false, t)
    | _ => (false, s)
    end in
  match s1 with
  | EmptyString => None
  | _ =>
      match digits 0 s1 with
      | Some n =>
          let v := if neg then - n else n in
          if (minInt <=? v) && (v <=? maxInt) then Some v else None
      | None => None
      end
  end.

End Strconv.

(** ** The types of [main.go] *)

(** [type Property struct { Type string }].  ([Type] is a keyword of
    Rocq, so the two [Type] fields carry their struct's name.) *)
Record Property := { PropertyType : string }.

#[global] Instance Property_eq_dec : EqDecision Property.
Proof. solve_decision. Defined.

(** [type Schema struct { Title, Type string; Properties
    map[string]Property; Required []string }].  A nil map reads like an
    empty one and a nil slice like an empty one, so both are the empty
    value here. *)
Record Schema := {
  Title : string;
  SchemaType : string;
  Properties : gmap string Property;
  Required : list string
}.

(** [var schema Schema]: the zero value. *)
Definition zeroProperty : Property := {| PropertyType := EmptyString |}.
Definition zeroSchema : Schema :=
  {| Title := EmptyString; SchemaType := EmptyString; Properties := ∅; Required := [] |}.

(** ** Package [encoding/json], as far as [Decode(&schema)] goes *)

Module Json.

(** A JSON value as the decoder reads it.  Member order and repeated
    member names are kept, strings are already unquoted.  No field of
    [Schema] is numeric, so a number is only ever skipped or a type
    error, and its digits are not kept. *)
#[warnings="-register-all"]
Inductive json :=
| JNull
| JBool (b : bool)
| JNumber
| JString (s : string)
| JArray (elems : list json)
| JObject (members : list (string * json)).

(** The error [Decode] returns: [io.EOF] on a body without a value,
    [io.ErrUnexpectedEOF] on a body that ends inside one,
    [*json.SyntaxError], [*json.UnmarshalTypeError]. *)
Inductive DecodeError :=
| EOF
| ErrUnexpectedEOF
| SyntaxError
| UnmarshalTypeError.

Inductive result (A : Type) :=
| Ok (a : A) (rest : string)
| Err (e : DecodeError).
Arguments Ok {A} a rest.
Arguments Err {A} e.

Definition map_result {A B} (f : A -> B) (r : result A) : result B :=
  match r with
  | Ok a rest => Ok (f a) rest
  | Err e => Err e
  end.

Definition byte (c : ascii) : Z := Z.of_N (N_of_ascii c).
Definition chr (n : Z) : ascii := ascii_of_N (Z.to_N n).
Definition bytes (l : list Z) (s : string) : string :=
  foldr (fun n t => String (chr n) t) s l.

Definition quote : ascii := "034"%char.

Definition isSpace (c : ascii) : bool :=
  let n := byte c in (n =? 32) || (n =? 9) || (n =? 13) || (n =? 10).

Fixpoint skipSpace (s : string) : string :=
  match s with
  | String c s' => if isSpace c then skipSpace s' else s
  | EmptyString => EmptyString
  end.

Fixpoint skip (n : nat) (s : string) : string :=
  match n, s with
  | S n', String _ s' => skip n' s'
  | _, _ => s
  end.

Fixpoint take (n : nat) (s : string) : string :=
  match n, s with
  | S n', String c s' => String c (take n' s')
  | _, _ => EmptyString
  end.

(** *** String literals *)

Definition hexval (c : ascii) : option Z :=
  let n := byte c in
  if (48 <=? n) && (n <=? 57) then Some (n - 48)
  else if (97 <=? n) && (n <=? 102) then Some (n - 87)
  else if (65 <=? n) && (n <=? 70) then Some (n - 55)
  else None.

(** [getu4(s)]: the rune of a [\uXXXX] escape at the start of [s], or
    [-1]. *)
Definition getu4 (s : string) : Z :=
  match s with
  | String "\" (String "u" (String a (String b (String c (String d _))))) =>
      match hexval a, hexval b, hexval c, hexval d with
      | Some x, Some y, Some z, Some w => ((x * 16 + y) * 16 + z) * 16 + w
      | _, _, _, _ => -1
      end
  | _ => -1
  end.

(** The four hexadecimal digits after [\u], as the scanner steps
    through them. *)
Fixpoint hex4 (n : nat) (acc : Z) (s : string) : result Z :=
  match n with
  | O => Ok acc s
  | S n' =>
      match s with
      | EmptyString => Err ErrUnexpectedEOF
      | String c s' =>
          match hexval c with
          | Some d => hex4 n' (acc * 16 + d) s'
          | None => Err SyntaxError
          end
      end
  end.

Definition ReplacementChar : Z := 65533.

Definition isSurrogate (r : Z) : bool := (55296 <=? r) && (r <? 57344).

(** [utf16.DecodeRune(r1, r2)]. *)
Definition decodeRune16 (r1 r2 : Z) : Z :=
  if (55296 <=? r1) && (r1 <? 56320) && (56320 <=? r2) && (r2 <? 57344)
  then Z.lor (Z.shiftl (r1 - 55296) 10) (r2 - 56320) + 65536
  else ReplacementChar.

(** [utf8.EncodeRune]. *)
Definition encodeRune (r : Z) : list Z :=
  if r <? 0 then [239; 191; 189]
  else if r <=? 127 then [r]
  else if r <=? 2047 then
    [Z.lor 192 (Z.shiftr r 6); Z.lor 128 (Z.land r 63)]
  else if isSurrogate r || (1114111 <? r) then [239; 191; 189]
  else if r <=? 65535 then
    [Z.lor 224 (Z.shiftr r 12); Z.lor 128 (Z.land (Z.shiftr r 6) 63);
     Z.lor 128 (Z.land r 63)]
  else
    [Z.lor 240 (Z.shiftr r 18); Z.lor 128 (Z.land (Z.shiftr r 12) 63);
     Z.lor 128 (Z.land (Z.shiftr r 6) 63); Z.lor 128 (Z.land r 63)].

Definition between (lo hi : Z) (c : ascii) : bool :=
  (lo <=? byte c) && (byte c <=? hi).

(** The size [utf8.DecodeRune] reports for a well-formed sequence at
    the start of [s]; [0] where it reports [RuneError] (and steps over
    one byte). *)
Definition utf8Len (s : string) : nat :=
  match s with
  | String b0 t =>
      let n := byte b0 in
      if (194 <=? n) && (n <=? 223) then
        match t with
        | String b1 _ => if between 128 191 b1 then 2%nat else 0%nat
        | _ => 0%nat
        end
      else if (224 <=? n) && (n <=? 239) then
        let lo := if n =? 224 then 160 else 128 in
        let hi := if n =? 237 then 159 else 191 in
        match t with
        | String b1 (String b2 _) =>
            if between lo hi b1 && between 128 191 b2 then 3%nat else 0%nat
        | _ => 0%nat
        end
      else if (240 <=? n) && (n <=? 244) then
        let lo := if n =? 240 then 144 else 128 in
        let hi := if n =? 244 then 143 else 191 in
        match t with
        | String b1 (String b2 (String b3 _)) =>
            if between lo hi b1 && between 128 191 b2 && between 128 191 b3
            then 4%nat else 0%nat
        | _ => 0%nat
        end
      else 0%nat
  | EmptyString => 0%nat
  end.

(** The byte an escape of one letter stands for. *)
Definition simpleEscape (e : ascii) : option Z :=
  let n := byte e in
  if (n =? 34) || (n =? 92) || (n =? 47) then Some n
  else if n =? 98 then Some 8
  else if n =? 102 then Some 12
  else if n =? 110 then Some 10
  else if n =? 114 then Some 13
  else if n =? 116 then Some 9
  else None.

(** A string literal from behind its opening quote: the scanner's
    checks ([stateInString] and its escape states) and [unquote] in
    one pass.  Every step consumes input, so [fuel] above the length
    of [s] is never used up. *)
Fixpoint stringLit (fuel : nat) (s : string) : result string :=
  match fuel with
  | O => Err SyntaxError
  | S fuel =>
      match s with
      | EmptyString => Err ErrUnexpectedEOF
      | String c s' =>
          if decide (c = quote) then Ok EmptyString s'
          else if decide (c = "\"%char) then
            match s' with
            | EmptyString => Err ErrUnexpectedEOF
            | String e s'' =>
                match simpleEscape e with
                | Some b => map_result (bytes [b]) (stringLit fuel s'')
                | None =>
                    if decide (e = "u"%char) then
                      match hex4 4 0 s'' with
                      | Ok rr rest =>
                          if isSurrogate rr then
                            let dec := decodeRune16 rr (getu4 rest) in
                            if dec =? ReplacementChar then
                              (* invalid surrogate: the replacement rune *)
                              map_result (bytes (encodeRune ReplacementChar))
                                         (stringLit fuel rest)
                            else
                              (* a valid pair: consume both escapes *)
                              map_result (bytes (encodeRune dec))
                                         (stringLit fuel (skip 6 rest))
                          else
                            map_result (bytes (encodeRune rr)) (stringLit fuel rest)
                      | Err e => Err e
                      end
                    else Err SyntaxError
                end
            end
          else if byte c <? 32 then Err SyntaxError
          else if byte c <? 128 then map_result (String c) (stringLit fuel s')
          else
            match utf8Len s with
            | O => map_result (bytes (encodeRune ReplacementChar)) (stringLit fuel s')
            | n => map_result (append (take n s)) (stringLit fuel (skip n s))
            end
      end
  end.

(** *** Numbers and the three literal names *)

Definition isDigit (c : ascii) : bool := between 48 57 c.

Fixpoint skipDigits (s : string) : string :=
  match s with
  | String c s' => if isDigit c then skipDigits s' else s
  | EmptyString => EmptyString
  end.

(** [stateE], [stateESign], [stateE0]. *)
Definition exponent (s : string) : result unit :=
  let s1 :=
    match s with
    | String c t => if decide (c = "+"%char ∨ c = "-"%char) then t else s
    | EmptyString => s
    end in
  match s1 with
  | EmptyString => Err ErrUnexpectedEOF
  | String d t => if isDigit d then Ok tt (skipDigits t) else Err SyntaxError
  end.

Definition isE (c : ascii) : bool := (byte c =? 101) || (byte c =? 69).

(** [stateDot], [stateDot0]. *)
Definition fraction (s : string) : result unit :=
  match s with
  | EmptyString => Err ErrUnexpectedEOF
  | String d t =>
      if isDigit d then
        match skipDigits t with
        | String e r => if isE e then exponent r else Ok tt (String e r)
        | EmptyString => Ok tt EmptyString
        end
      else Err SyntaxError
  end.

(** [state0] and [state1] once the integer digits are read. *)
Definition afterInt (s : string) : result unit :=
  match s with
  | String c t =>
      if decide (c = "."%char) then fraction t
      else if isE c then exponent t
      else Ok tt s
  | EmptyString => Ok tt s
  end.

(** A number from its first digit on (behind the sign, if any). *)
Definition number (s : string) : result unit :=
  match s with
  | EmptyString => Err ErrUnexpectedEOF
  | String d t =>
      if decide (d = "0"%char) then afterInt t
      else if between 49 57 d then afterInt (skipDigits t)
      else Err SyntaxError
  end.

(** The rest of [true], [false] or [null] behind its first letter. *)
Fixpoint literal (lit s : string) : result unit :=
  match lit with
  | EmptyString => Ok tt s
  | String l lit' =>
      match s with
      | EmptyString => Err ErrUnexpectedEOF
      | String c s' => if decide (c = l) then literal lit' s' else Err SyntaxError
      end
  end.

(** *** Values *)

(** [maxNestingDepth]: the scanner refuses to open an object or array
    inside that many open ones. *)
Definition maxNestingDepth : N := 10000.

(** The scanner's walk over one value, building the value on the way.
    [depth] is the number of objects and arrays open around [s].
    [scanValue] reads a value, [scanMembers] the members of an object
    from a member name on, [scanElements] the elements of an array from
    an element on.  [fuel] above twice the length of [s] is never used
    up. *)
Fixpoint scanValue (fuel : nat) (depth : N) (s : string) : result json :=
  match fuel with
  | O => Err SyntaxError
  | S fuel =>
      match skipSpace s with
      | EmptyString => Err ErrUnexpectedEOF
      | String c s1 =>
          if decide (c = "{"%char) then
            if (depth <? maxNestingDepth)%N then
              match skipSpace s1 with
              | EmptyString => Err ErrUnexpectedEOF
              | String c1 s2 =>
                  if decide (c1 = "}"%char) then Ok (JObject []) s2
                  else map_result JObject (scanMembers fuel (depth + 1)%N s1)
              end
            else Err SyntaxError
          else if decide (c = "["%char) then
            if (depth <? maxNestingDepth)%N then
              match skipSpace s1 with
              | EmptyString => Err ErrUnexpectedEOF
              | String c1 s2 =>
                  if decide (c1 = "]"%char) then Ok (JArray []) s2
                  else map_result JArray (scanElements fuel (depth + 1)%N s1)
              end
            else Err SyntaxError
          else if decide (c = quote) then
            map_result JString (stringLit (S (String.length s1)) s1)
          else if decide (c = "-"%char) then
            map_result (fun _ => JNumber) (number s1)
          else if isDigit c then
            map_result (fun _ => JNumber) (number (String c s1))
          else if decide (c = "t"%char) then
            map_result (fun _ => JBool true) (literal "rue" s1)
          else if decide (c = "f"%char) then
            map_result (fun _ => JBool false) (literal "alse" s1)
          else if decide (c = "n"%char) then
            map_result (fun _ => JNull) (literal "ull" s1)
          else Err SyntaxError
      end
  end
with scanMembers (fuel : nat) (depth : N) (s : string) : result (list (string * json)) :=
  match fuel with
  | O => Err SyntaxError
  | S fuel =>
      match skipSpace s with
      | EmptyString => Err ErrUnexpectedEOF
      | String c s1 =>
          if decide (c = quote) then
            match stringLit (S (String.length s1)) s1 with
            | Ok key s2 =>
                match skipSpace s2 with
                | EmptyString => Err ErrUnexpectedEOF
                | String c2 s3 =>
                    if decide (c2 = ":"%char) then
                      match scanValue fuel depth s3 with
                      | Ok v s4 =>
                          match skipSpace s4 with
                          | EmptyString => Err ErrUnexpectedEOF
                          | String c4 s5 =>
                              if decide (c4 = ","%char) then
                                map_result (cons (key, v)) (scanMembers fuel depth s5)
                              else if decide (c4 = "}"%char) then Ok [(key, v)] s5
                              else Err SyntaxError
                          end
                      | Err e => Err e
                      end
                    else Err SyntaxError
                end
            | Err e => Err e
            end
          else Err SyntaxError
      end
  end
with scanElements (fuel : nat) (depth : N) (s : string) : result (list json) :=
  match fuel with
  | O => Err SyntaxError
  | S fuel =>
      match scanValue fuel depth s with
      | Ok v s1 =>
          match skipSpace s1 with
          | EmptyString => Err ErrUnexpectedEOF
          | String c s2 =>
              if decide (c = ","%char) then map_result (cons v) (scanElements fuel depth s2)
              else if decide (c = "]"%char) then Ok [v] s2
              else Err SyntaxError
          end
      | Err e => Err e
      end
  end.

(** [Decoder.readValue] on the whole body: the first value of the
    stream.  What follows that value is not looked at.  A body of
    white space only is [io.EOF]. *)
Definition readValue (body : string) : DecodeError + json :=
  match skipSpace body with
  | EmptyString => inl EOF
  | _ =>
      match scanValue (S (2 * String.length body)) 0 body with
      | Ok v _ => inr v
      | Err e => inl e
      end
  end.

(** *** Storing a value into a [Schema] *)

Definition upperByte (c : ascii) : ascii :=
  if between 97 122 c then chr (byte c - 32) else c.

(** [foldName] as far as a lookup among ASCII field names can tell:
    ASCII letters go to upper case, and the two runes whose case orbit
    holds an ASCII letter, U+017F (long s) and U+212A (Kelvin sign),
    go to [S] and [K].  Any other multi-byte rune folds to a rune
    outside ASCII; its bytes are left as they are. *)
Fixpoint foldName (s : string) : string :=
  match s with
  | EmptyString => EmptyString
  | String c t =>
      match t with
      | String c1 t1 =>
          if (byte c =? 197) && (byte c1 =? 191) then String "S" (foldName t1)
          else
            match t1 with
            | String c2 t2 =>
                if (byte c =? 226) && (byte c1 =? 132) && (byte c2 =? 170)
                then String "K" (foldName t2)
                else String (upperByte c) (foldName t)
            | EmptyString => String (upperByte c) (foldName t)
            end
      | EmptyString => String (upperByte c) (foldName t)
      end
  end.

(** The field a member name selects: the field of that very name,
    else the first field with the same folded name. *)
Definition field (names : list string) (key : string) : option string :=
  match List.find (fun n => bool_decide (n = key)) names with
  | Some n => Some n
  | None => List.find (fun n => bool_decide (foldName n = foldName key)) names
  end.

(** A [string] field: [null] leaves it as it is, a JSON string sets
    it, any other value is a type error. *)
Definition storeString (v : json) (old : string) : option string :=
  match v with
  | JNull => Some old
  | JString s => Some s
  | _ => None
  end.

(** A [Property]: [null] leaves it, an object sets the fields its
    members name ([type] is the only one) and skips the others. *)
Definition storeProperty (v : json) (old : Property) : option Property :=
  match v with
  | JNull => Some old
  | JObject ms =>
      foldl (fun acc '(key, x) =>
               p ← acc;
               match field ["type"] key with
               | Some _ =>
                   t ← storeString x (PropertyType p);
                   Some {| PropertyType := t |}
               | None => Some p
               end)
            (Some old) ms
  | _ => None
  end.

(** A [map[string]Property]: [null] makes it nil, an object stores
    each member under its name, in order, each from a zero
    [Property]; the entries the map already holds stay. *)
Definition storeProperties (v : json) (old : gmap string Property)
  : option (gmap string Property) :=
  match v with
  | JNull => Some ∅
  | JObject ms =>
      foldl (fun acc '(key, x) =>
               m ← acc;
               p ← storeProperty x zeroProperty;
               Some (<[key := p]> m))
            (Some old) ms
  | _ => None
  end.

(** The elements of an array stored into the slots of a slice, slot
    [i] starting from what the backing array holds there. *)
Fixpoint storeElements (xs : list json) (slots : list string) : option (list string) :=
  match xs with
  | [] => Some []
  | x :: xs' =>
      e ← storeString x (List.hd EmptyString slots);
      es ← storeElements xs' (List.tl slots);
      Some (e :: es)
  end.

(** A [[]string].  The decoder stores element [i] into slot [i] of the
    slice, growing it as needed, and cuts the slice to the number of
    elements; slots it cuts off stay in the backing array and show
    again under a later [null] element.  [spare] is that rest of the
    backing array behind the slice.  [null] makes the slice nil, an
    empty array makes a new empty slice. *)
Definition storeRequired (v : json) (old : list string * list string)
  : option (list string * list string) :=
  match v with
  | JNull => Some ([], [])
  | JArray [] => Some ([], [])
  | JArray xs =>
      let slots := (old.1 ++ old.2)%list in
      es ← storeElements xs slots;
      Some (es, List.skipn (List.length xs) slots)
  | _ => None
  end.

(** One member of the top-level object. *)
Definition storeField (st : Schema * list string) (key : string) (x : json)
  : option (Schema * list string) :=
  let '(s, spare) := st in
  match field ["title"; "type"; "properties"; "required"] key with
  | Some "title" =>
      t ← storeString x (Title s);
      Some ({| Title := t; SchemaType := SchemaType s;
               Properties := Properties s; Required := Required s |}, spare)
  | Some "type" =>
      t ← storeString x (SchemaType s);
      Some ({| Title := Title s; SchemaType := t;
               Properties := Properties s; Required := Required s |}, spare)
  | Some "properties" =>
      m ← storeProperties x (Properties s);
      Some ({| Title := Title s; SchemaType := SchemaType s;
               Properties := m; Required := Required s |}, spare)
  | Some _ =>
      r ← storeRequired x (Required s, spare);
      Some ({| Title := Title s; SchemaType := SchemaType s;
               Properties := Properties s; Required := r.1 |}, r.2)
  | None => Some st
  end.

(** [d.unmarshal(&schema)]: [null] leaves the schema as it is, an
    object stores its members in order, any other value is a type
    error.  A member that does not fit its field makes the whole
    decoding fail ([None]); the handler then drops the schema. *)
Definition unmarshal (v : json) (schema : Schema) : option Schema :=
  match v with
  | JNull => Some schema
  | JObject ms =>
      fst <$> foldl (fun acc '(key, x) => st ← acc; storeField st key x)
                    (Some (schema, [])) ms
  | _ => None
  end.

(** [json.NewDecoder(body).Decode(&schema)] on [var schema Schema]. *)
Definition Decode (body : string) : DecodeError + Schema :=
  match readValue body with
  | inl e => inl e
  | inr v =>
      match unmarshal v zeroSchema with
      | Some schema => inr schema
      | None => inl UnmarshalTypeError
      end
  end.

End Json.

(** ** [main.go]: requests, responses, and the handler monad *)

(** What [dummyData] stores under a key: an [interface{}] holding a
    string, an [int], a [float64], a [bool], or nil. *)
Inductive value :=
| VString (s : string)
| VInt (n : Z)
| VFloat (f : spec_float)
| VBool (b : bool)
| VNil.

(** What a handler hands to [json.NewEncoder(w).Encode]: the list of
    [GET /{entity}], a synthesized object, or a [map[string]string]. *)
Inductive payload :=
| PList (objs : list (gmap string value))
| PObject (obj : gmap string value)
| PMessage (msg : gmap string string).

(** The body a handler writes.  [Text] is the plain text of
    [http.Error]; [TextErr prefix err] is the plain text
    [prefix + err.Error()], the wording of [err.Error()] being left to
    the decoder; [JSON] is the encoding of a payload. *)
Inductive body :=
| Text (msg : string)
| TextErr (prefix : string) (err : Json.DecodeError)
| JSON (p : payload).

Record Response := { Status : Z; Body : body }.

(** The parts of [*http.Request] the handlers read. *)
Record Request := { Method : string; Path : string; RequestBody : string }.

Definition MethodGet : string := "GET".
Definition MethodPost : string := "POST".
Definition MethodPut : string := "PUT".
Definition MethodDelete : string := "DELETE".

Definition StatusOK : Z := 200.
Definition StatusBadRequest : Z := 400.
Definition StatusNotFound : Z := 404.
Definition StatusMethodNotAllowed : Z := 405.

(** What a run of [catchAllHandler] has done so far: the number of
    [range] loops it has entered and the number of calls of
    [dummyData]. *)
Record Trace := { ranges : nat; synths : nat }.

Definition start : Trace := {| ranges := 0; synths := 0 |}.

(** A handler step either writes a response and returns ([inl]) or
    goes on with a value ([inr]). *)
Definition Handler (A : Type) : Type := Trace -> (Response + A) * Trace.

Definition ret {A} (a : A) : Handler A := fun t => (inr a, t).

Definition bind {A B} (m : Handler A) (k : A -> Handler B) : Handler B :=
  fun t =>
    match m t with
    | (inl resp, t') => (inl resp, t')
    | (inr a, t') => k a t'
    end.

Notation "'let*' x ':=' m 'in' k" := (bind m (fun x => k))
  (at level 10, x name, m at level 100, k at level 200).

(** [http.Error(w, msg, code); return]. *)
Definition Error {A} (msg : string) (code : Z) : Handler A :=
  fun t => (inl {| Status := code; Body := Text msg |}, t).

(** [http.NotFound(w, r); return]. *)
Definition NotFound {A} : Handler A := Error "404 page not found" StatusNotFound.

(** The end of a handler: the payload encoded as the body of a
    response that nobody gave a status, hence 200. *)
Definition encode (m : Handler payload) (t : Trace) : Response * Trace :=
  match m t with
  | (inl resp, t') => (resp, t')
  | (inr responseObj, t') => ({| Status := StatusOK; Body := JSON responseObj |}, t')
  end.

(** ** [main.go]: the functions *)

Section Handlers.

(** The table of lower cases [strings.ToLower] works on, see
    [Unicode.ToLower]. *)
Variable lowerCase : Z -> Z.

(** Go fixes no order for [range] over a map and may change it from
    one loop to the next: [rangeOrder k m] is the order in which the
    [k]-th loop of a run walks through [m]. *)
Variable rangeOrder : nat -> gmap string Property -> list (string * Property).

Definition range (m : gmap string Property) : Handler (list (string * Property)) :=
  fun t => (inr (rangeOrder (ranges t) m),
            {| ranges := S (ranges t); synths := synths t |}).

(** The [switch prop.Type] of [dummyData]. *)
Definition dummyValue (type : string) : value :=
  if decide (type = "string") then VString "example"
  else if decide (type = "integer") then VInt 1
  else if decide (type = "number") then VFloat (S754_zero false)
  else if decide (type = "boolean") then VBool false
  else VNil.

(** [func dummyData() map[string]interface{}]. *)
Definition dummyData (currentSchema : option Schema) : Handler (gmap string value) :=
  fun t =>
    let t := {| ranges := ranges t; synths := S (synths t) |} in
    match currentSchema with
    | None => ret ∅ t
    | Some schema =>
        (let* kvs := range (Properties schema) in
         ret (foldl (fun data '(key, prop) =>
                       <[key := dummyValue (PropertyType prop)]> data)
                    ∅ kvs)) t
    end.

(** [func uploadHandler(w, r)]: the response and the new value of
    [currentSchema]. *)
Definition uploadHandler (currentSchema : option Schema) (r : Request)
  : Response * option Schema :=
  if decide (Method r ≠ MethodPost) then
    ({| Status := StatusMethodNotAllowed; Body := Text "Only POST allowed" |},
     currentSchema)
  else
    match Json.Decode (RequestBody r) with
    | inl err =>
        ({| Status := StatusBadRequest;
            Body := TextErr "Invalid JSON schema: " err |},
         currentSchema)
    | inr schema =>
        ({| Status := StatusOK;
            Body := JSON (PMessage {[ "message" := "Schema uploaded successfully";
                                      "title" := Title schema ]}) |},
         Some schema)
    end.

(** The loop that looks for the field of a string ID, from
    [stringKey := "id"; foundKey := false] on: the value of
    [stringKey] behind the loop. *)
Fixpoint findStringKey (kvs : list (string * Property))
    (stringKey : string) (foundKey : bool) : string :=
  match kvs with
  | [] => stringKey
  | (key, prop) :: kvs' =>
      if decide (key = "id" ∧ PropertyType prop = "string") then
        key (* stringKey = key; foundKey = true; break *)
      else if decide (PropertyType prop = "string" ∧ foundKey = false) then
        findStringKey kvs' key foundKey
      else
        findStringKey kvs' stringKey foundKey
  end.

(** [idProp, hasIntegerId := currentSchema.Properties["id"];
    hasIntegerId && idProp.Type == "integer"]. *)
Definition isIntegerExpected (schema : Schema) : bool :=
  match Properties schema !! "id" with
  | Some idProp => bool_decide (PropertyType idProp = "integer")
  | None => false
  end.

(** The body of [GET /{entity}/{id}], which [PUT /{entity}/{id}]
    repeats line by line. *)
Definition single (schema : Schema) (requestedID : string) : Handler payload :=
  let* obj := dummyData (Some schema) in
  if isIntegerExpected schema then
    match Strconv.Atoi requestedID with
    | None => Error "Invalid ID format: expected integer" StatusBadRequest
    | Some id => ret (PObject (<["id" := VInt id]> obj))
    end
  else
    let* kvs := range (Properties schema) in
    let stringKey := findStringKey kvs "id" false in
    ret (PObject (<[stringKey := VString requestedID]> obj)).

(** [for i := 1; i <= 3; i++ { obj := dummyData(); obj["id"] = i;
    list = append(list, obj) }], [n] rounds from [i] on. *)
Fixpoint listLoop (schema : Schema) (n : nat) (i : Z)
    (list_ : list (gmap string value)) : Handler (list (gmap string value)) :=
  match n with
  | O => ret list_
  | S n' =>
      let* obj := dummyData (Some schema) in
      listLoop schema n' (i + 1) (list_ ++ [<["id" := VInt i]> obj])
  end.

(** [len(segments) == n && segments[0] == entity]. *)
Definition matches (segments : list string) (n : nat) (entity : string) : bool :=
  bool_decide (length segments = n) && bool_decide (List.hd_error segments = Some entity).

(** [func catchAllHandler(w, r)]. *)
Definition catchAllHandler (currentSchema : option Schema) (r : Request)
  : Trace -> Response * Trace :=
  encode
    match currentSchema with
    | None =>
        Error "No schema uploaded. Please POST your JSON schema to /upload"
              StatusBadRequest
    | Some schema =>
        let path := Strings.Trim (Path r) "/" in
        let segments := Strings.Split path "/" in
        let entity := Strings.ToLower lowerCase (Title schema) +:+ "s" in
        if decide (Method r = MethodGet) then
          if matches segments 1 entity then
            let* list_ := listLoop schema 3 1 [] in
            ret (PList list_)
          else if matches segments 2 entity then
            single schema (List.nth 1 segments EmptyString)
          else NotFound
        else if decide (Method r = MethodPost) then
          let* obj := dummyData (Some schema) in
          ret (PObject (<["id" := VInt 1]> obj))
        else if decide (Method r = MethodPut) then
          if matches segments 2 entity then
            single schema (List.nth 1 segments EmptyString)
          else NotFound
        else if decide (Method r = MethodDelete) then
          if matches segments 2 entity then
            let requestedID := List.nth 1 segments EmptyString in
            if isIntegerExpected schema then
              match Strconv.Atoi requestedID with
              | None => Error "Invalid ID format: expected integer" StatusBadRequest
              | Some _ => ret (PMessage {[ "message" := "Deleted successfully" ]})
              end
            else ret (PMessage {[ "message" := "Deleted successfully" ]})
          else NotFound
        else Error "Method not supported" StatusMethodNotAllowed
    end.

End Handlers.


(** ** The notions the statements use *)

(** The entity name of a schema and the segments of a request path, as
    [catchAllHandler] computes them. *)
Definition entityOf (lowerCase : Z -> Z) (schema : Schema) : string :=
  Strings.ToLower lowerCase (Title schema) +:+ "s".

Definition segmentsOf (path : string) : list string :=
  Strings.Split (Strings.Trim path "/") "/".

(** A [range] order is sound when every loop visits each entry of the
    map once. *)
Definition RangeOrder (order : nat -> gmap string Property -> list (string * Property)) : Prop :=
  forall k m, order k m ≡ₚ map_to_list m.

(** The order of the keys' encoding, one sound [range] order. *)
Definition keyOrder (k : nat) (m : gmap string Property) : list (string * Property) :=
  map_to_list m.

(** The object of placeholders of a schema: under every declared
    property the placeholder of its type. *)
Definition placeholders (schema : Schema) : gmap string value :=
  (fun prop => dummyValue (PropertyType prop)) <$> Properties schema.

(** A string that holds no byte [c]. *)
Fixpoint free (c : ascii) (s : string) : Prop :=
  match s with
  | EmptyString => True
  | String a s' => a <> c /\ free c s'
  end.

(** [sub] occurs in [s]. *)
Definition contains (sub s : string) : Prop :=
  exists pre post, s = pre +:+ sub +:+ post.

(** [n] copies of [obj], their [id] set to [i], [i + 1], ... *)
Fixpoint numbered (obj : gmap string value) (n : nat) (i : Z) : list (gmap string value) :=
  match n with
  | O => []
  | S n' => <["id" := VInt i]> obj :: numbered obj n' (i + 1)
  end.

(** The trace behind [n] more calls of [dummyData] on a schema. *)
Definition synthesized (n : nat) (t : Trace) : Trace :=
  {| ranges := n + ranges t; synths := n + synths t |}.

(** [n] slashes. *)
Fixpoint slashes (n : nat) : string :=
  match n with
  | O => EmptyString
  | S n' => String "/" (slashes n')
  end.

(** The first string-typed key of a scan. *)
Fixpoint firstString (kvs : list (string * Property)) : option string :=
  match kvs with
  | [] => None
  | (key, prop) :: kvs' =>
      if decide (PropertyType prop = "string") then Some key else firstString kvs'
  end.

(** The last string-typed key of a scan. *)
Fixpoint lastString (kvs : list (string * Property)) : option string :=
  match kvs with
  | [] => None
  | (key, prop) :: kvs' =>
      match lastString kvs' with
      | Some k => Some k
      | None => if decide (PropertyType prop = "string") then Some key else None
      end
  end.

(** The field the specification names for a string ID, in its words:
    the property named [id] if its type is [string]; otherwise the first
    string-typed property encountered in the scan; otherwise [id]. *)
Definition specStringKey (kvs : list (string * Property)) : string :=
  if decide (("id", {| PropertyType := "string" |}) ∈ kvs) then "id"
  else default "id" (firstString kvs).

(** The schema of the tests: title [User], an integer [id], two string
    properties. *)
Definition userSchema : Schema :=
  {| Title := "User"; SchemaType := "object";
     Properties := {[ "id" := {| PropertyType := "integer" |};
                      "name" := {| PropertyType := "string" |};
                      "email" := {| PropertyType := "string" |} ]};
     Required := ["id"; "name"; "email"] |}.

(** A title that is not ASCII: [Elan] with an acute accent on the
    capital, U+00C9, the two bytes C3 89; and a schema of that title
    with an integer [id]. *)
Definition elan : string := String "195" (String "137" "lan").

(** Its entity name by the table of the examples: the accent on a
    small letter, U+00E9, the two bytes C3 A9. *)
Definition elans : string := String "195" (String "169" "lans").

Definition elanSchema : Schema :=
  {| Title := elan; SchemaType := "object";
     Properties := {[ "id" := {| PropertyType := "integer" |};
                      "name" := {| PropertyType := "string" |} ]};
     Required := [] |}.

(** A schema without [id]: two string properties. *)
Definition contactSchema : Schema :=
  {| Title := "Contact"; SchemaType := "object";
     Properties := {[ "name" := {| PropertyType := "string" |};
                      "email" := {| PropertyType := "string" |} ]};
     Required := [] |}.

(** [s] between double quotes, and the body [json.Marshal] makes of
    the schema of the tests. *)
Definition quoted (s : string) : string :=
  String Json.quote s +:+ String Json.quote EmptyString.

Definition userSchemaJSON : string :=
  "{" +:+ quoted "title" +:+ ":" +:+ quoted "User" +:+ ","
  +:+ quoted "type" +:+ ":" +:+ quoted "object" +:+ ","
  +:+ quoted "properties" +:+ ":{"
  +:+ quoted "email" +:+ ":{" +:+ quoted "type" +:+ ":" +:+ quoted "string" +:+ "},"
  +:+ quoted "id" +:+ ":{" +:+ quoted "type" +:+ ":" +:+ quoted "integer" +:+ "},"
  +:+ quoted "name" +:+ ":{" +:+ quoted "type" +:+ ":" +:+ quoted "string" +:+ "}},"
  +:+ quoted "required" +:+ ":[" +:+ quoted "id" +:+ "," +:+ quoted "name" +:+ ","
  +:+ quoted "email" +:+ "]}".

Definition request (method path : string) : Request :=
  {| Method := method; Path := path; RequestBody := EmptyString |}.

Definition upload (body : string) : Request :=
  {| Method := MethodPost; Path := "/upload"; RequestBody := body |}.

(** The pieces [segs] put together again with [sep] between them. *)
Fixpoint Join (segs : list string) (sep : ascii) : string :=
  match segs with
  | [] => EmptyString
  | [seg] => seg
  | seg :: rest => seg +:+ String sep (Join rest sep)
  end.

(** A string without a byte in ['A'..'Z']. *)
Fixpoint lowerOnly (s : string) : Prop :=
  match s with
  | EmptyString => True
  | String c s' => ~ (65 <= Z.of_N (N_of_ascii c) <= 90) /\ lowerOnly s'
  end.

(** The first [k] bytes of [s] are there and are no ASCII bytes. *)
Fixpoint highBytes (k : nat) (s : string) : Prop :=
  match k with
  | O => True
  | S k' =>
      match s with
      | String b t => 128 <= Utf8.rune b /\ highBytes k' t
      | EmptyString => False
      end
  end.

(** What Unicode's table of lower cases has: no rune has an upper-case
    ASCII letter as its lower case. *)
Definition lowerCaseTable (lowerCase : Z -> Z) : Prop :=
  forall r, ~ (65 <= lowerCase r <= 90).

(** A property of type [string]. *)
Definition stringTyped (prop : Property) : Prop := PropertyType prop = "string".

(** The [range] order that visits the entries of [props] with [key]
    last, and the entries of any other map in the order of their keys'
    encoding. *)
Definition orderLast (props : gmap string Property) (key : string) (prop : Property)
    (k : nat) (m : gmap string Property) : list (string * Property) :=
  if decide (m = props) then (map_to_list (delete key m) ++ [(key, prop)])%list
  else map_to_list m.

(** A string of white space, as the decoder sees it. *)
Fixpoint blank (s : string) : Prop :=
  match s with
  | EmptyString => True
  | String c s' => Json.isSpace c = true /\ blank s'
  end.

(** A call of one of the two handlers, as the tests make them, and the
    package variable [currentSchema] behind a call and behind a run of
    calls. *)
Inductive call :=
| CallUpload (r : Request)
| CallCatchAll (r : Request).

Definition storeAfter (currentSchema : option Schema) (c : call) : option Schema :=
  match c with
  | CallUpload r => (uploadHandler currentSchema r).2
  | CallCatchAll _ => currentSchema
  end.

Definition storeAfterAll (currentSchema : option Schema) (cs : list call) : option Schema :=
  foldl storeAfter currentSchema cs.

(** The schema of the last call of a run that is a POST to
    [uploadHandler] with a body that decodes. *)
Fixpoint lastUploaded (cs : list call) : option Schema :=
  match cs with
  | [] => None
  | c :: cs' =>
      match lastUploaded cs' with
      | Some schema => Some schema
      | None =>
          match c with
          | CallUpload r =>
              if decide (Method r = MethodPost) then
                match Json.Decode (RequestBody r) with
                | inr schema => Some schema
                | inl _ => None
                end
              else None
          | CallCatchAll _ => None
          end
      end
  end.


(** ** Facts about the library functions *)

Section StringFacts.

Import Strings.

Lemma trimRightByte_snoc s c :
  trimRightByte (s +:+ String c EmptyString) c = trimRightByte s c.
Proof.
  induction s as [|a s IH]; simpl.
  - by rewrite decide_True.
  - by rewrite IH.
Qed.

Lemma Trim_snoc s c : Trim (s +:+ String c EmptyString) c = Trim s c.
Proof. unfold Trim. by rewrite trimRightByte_snoc. Qed.

Lemma Trim_cons s c : Trim (String c s) c = Trim s c.
Proof.
  unfold Trim. simpl.
  destruct (trimRightByte s c) eqn:E; simpl.
  - by rewrite decide_True.
  - by rewrite decide_True.
Qed.

Lemma append_cons x (s t : string) : String x s +:+ t = String x (s +:+ t).
Proof. reflexivity. Qed.

Lemma append_nil_r (s : string) : s +:+ EmptyString = s.
Proof. induction s as [|x s IH]; [done | by rewrite append_cons, IH]. Qed.

Lemma append_assoc (a b c : string) : (a +:+ b) +:+ c = a +:+ (b +:+ c).
Proof. induction a as [|x a IH]; [done | by rewrite !append_cons, IH]. Qed.

Lemma free_app c s t : free c (s +:+ t) <-> free c s /\ free c t.
Proof.
  induction s as [|a s IH].
  - change (EmptyString +:+ t) with t. simpl. tauto.
  - rewrite append_cons. simpl. tauto.
Qed.

Lemma lowerOnly_app s t : lowerOnly (s +:+ t) <-> lowerOnly s /\ lowerOnly t.
Proof.
  induction s as [|a s IH].
  - change (EmptyString +:+ t) with t. simpl. tauto.
  - rewrite append_cons. simpl. tauto.
Qed.

Lemma slashes_snoc n : slashes (S n) = slashes n +:+ "/".
Proof.
  induction n as [|n IH]; [done|].
  change (String "/" (slashes (S n)) = String "/" (slashes n +:+ "/")).
  f_equal. exact IH.
Qed.

(** Slashes at either end of a path do not reach the segments. *)
Lemma Trim_slashes_r s n : Trim (s +:+ slashes n) "/" = Trim s "/".
Proof.
  induction n as [|n IH].
  - simpl. by rewrite append_nil_r.
  - rewrite slashes_snoc, <- append_assoc, Trim_snoc. exact IH.
Qed.

Lemma Trim_slashes_l s n : Trim (slashes n +:+ s) "/" = Trim s "/".
Proof.
  induction n as [|n IH]; [done|].
  simpl slashes. by rewrite append_cons, Trim_cons.
Qed.

(** [Trim] leaves no slash at either end. *)
Lemma trimLeftByte_head s c a t : trimLeftByte s c = String a t -> a <> c.
Proof.
  induction s as [|b s IH]; simpl; [done|].
  destruct (decide (b = c)); [done|]. intros [= -> ->]. done.
Qed.

Lemma Trim_no_leading s c t : Trim s c <> String c t.
Proof. unfold Trim. intros E. by apply trimLeftByte_head in E. Qed.

Lemma trimRightByte_last s c : forall t, trimRightByte s c <> t +:+ String c EmptyString.
Proof.
  induction s as [|a s IH]; intros t; simpl.
  - by destruct t.
  - destruct (trimRightByte s c) as [|b u] eqn:Eu.
    + case_decide as Hac.
      * by destruct t.
      * destruct t as [|x t]; [by intros [= ->]|].
        rewrite append_cons. intros [= _ E]. by destruct t.
    + destruct t as [|x t]; [done|].
      rewrite append_cons. intros [= _ E]. by apply (IH t).
Qed.

Lemma trimLeftByte_last s c : forall t,
  trimLeftByte s c = t +:+ String c EmptyString ->
  exists t', s = t' +:+ String c EmptyString.
Proof.
  induction s as [|a s IH]; intros t; simpl.
  - by destruct t.
  - case_decide as Hac.
    + intros [t' ->]%IH. by exists (String a t').
    + intros ->. by exists t.
Qed.

Lemma Trim_no_trailing s c t : Trim s c <> t +:+ String c EmptyString.
Proof.
  unfold Trim. intros [t' E]%trimLeftByte_last. by apply trimRightByte_last in E.
Qed.

Lemma entity_nonempty lowerCase t : ToLower lowerCase t +:+ "s" <> EmptyString.
Proof. by destruct (ToLower lowerCase t). Qed.

(** [Split] returns at least one piece. *)
Lemma Split_nonempty s c : Split s c <> [].
Proof.
  destruct s as [|a s]; simpl; [done|].
  destruct (decide (a = c)); [done|]. by destruct (Split s c).
Qed.

(** A string without the separator is one segment. *)
Lemma Split_free s c : free c s -> Split s c = [s].
Proof.
  induction s as [|a s IH]; simpl; [done|].
  intros [Ha Hs]. rewrite decide_False by done. by rewrite IH.
Qed.

Lemma Split_app s t c :
  free c s -> Split (s +:+ String c t) c = s :: Split t c.
Proof.
  induction s as [|a s IH].
  - intros _. change (EmptyString +:+ String c t) with (String c t).
    simpl. by rewrite decide_True.
  - intros [Ha Hs]. rewrite append_cons. simpl.
    rewrite decide_False by done. by rewrite IH.
Qed.

Lemma trimRightByte_free_last s c :
  free c s -> s <> EmptyString -> forall p, trimRightByte (p +:+ s) c = p +:+ s.
Proof.
  intros Hs Hne p. induction p as [|a p IH].
  - change (EmptyString +:+ s) with s.
    clear Hne. induction s as [|a s IH]; simpl; [done|].
    destruct Hs as [Ha Hs]. rewrite (IH Hs).
    destruct s; [by rewrite decide_False | done].
  - rewrite append_cons. simpl. rewrite IH.
    destruct (p +:+ s) eqn:E; [|done].
    destruct p; [done | by rewrite append_cons in E].
Qed.


Lemma trimLeftByte_free s t c :
  free c s -> s <> EmptyString -> trimLeftByte (s +:+ t) c = s +:+ t.
Proof.
  destruct s as [|a s]; [done|]. intros [Ha _] _.
  rewrite append_cons. simpl. by rewrite decide_False.
Qed.

End StringFacts.

(** ** Facts about [strings.ToLower]: slashes and upper-case letters *)

Section Utf8Facts.

Import Utf8.

Lemma rune_range c : 0 <= rune c < 256.
Proof.
  unfold rune. pose proof (N_ascii_bounded c). lia.
Qed.

Lemma rune_byte v : rune (byte v) = Z.land v 0xFF.
Proof.
  unfold rune, byte.
  assert (0 <= Z.land v 0xFF < 256) as Hr.
  { change 0xFF with (Z.ones 8). rewrite Z.land_ones by lia. apply Z.mod_pos_bound. lia. }
  rewrite N_ascii_embedding by lia. lia.
Qed.

Lemma rune_inj a b : rune a = rune b -> a = b.
Proof.
  unfold rune. intros E. apply N2Z.inj in E.
  by rewrite <- (ascii_N_embedding a), <- (ascii_N_embedding b), E.
Qed.

(** An ASCII byte is a rune of its own. *)
Lemma DecodeRuneInString_ascii a s :
  rune a < RuneSelf -> DecodeRuneInString (String a s) = (rune a, 1%nat).
Proof.
  intros Ha. unfold DecodeRuneInString, first, RuneSelf in *.
  destruct (Z.ltb_spec (rune a) 0x80); [|lia]. reflexivity.
Qed.

(** A rune takes one to four bytes, and the bytes behind the first are
    no ASCII bytes. *)
Lemma DecodeRuneInString_width a s c width :
  DecodeRuneInString (String a s) = (c, width) ->
  (1 <= width)%nat /\ highBytes (width - 1) s.
Proof.
  unfold DecodeRuneInString.
  set (x := first (rune a)).
  assert ((as_ <=? x) = true
          \/ ((as_ <=? x) = false /\ locb <= (acceptRanges (Z.shiftr x 4)).1)) as Hx.
  { unfold x, first.
    repeat match goal with
      | |- context [if Z.ltb ?a ?b then _ else _] => destruct (Z.ltb a b)
      | |- context [if Z.eqb ?a ?b then _ else _] => destruct (Z.eqb a b)
      end; vm_compute; intuition congruence. }
  destruct Hx as [-> | [-> Hacc]].
  { intros [= <- <-]. by split. }
  generalize dependent (acceptRanges (Z.shiftr x 4)). intros [lo hi] Hlo. simpl in Hlo.
  unfold locb, hicb in *. cbn [fst snd].
  destruct (_ <? Z.land x 7); [by intros [= <- <-]|].
  destruct s as [|c1 t1]; [by intros [= <- <-]|].
  destruct (Z.ltb_spec (rune c1) lo); [by intros [= <- <-]|].
  destruct (hi <? rune c1); [by intros [= <- <-]|]. cbn [orb].
  destruct (Z.land x 7 <=? 2); [intros [= <- <-]; simpl; split; [lia|split; [lia|done]]|].
  destruct t1 as [|c2 t2]; [by intros [= <- <-]|].
  destruct (Z.ltb_spec (rune c2) 128); [by intros [= <- <-]|].
  destruct (191 <? rune c2); [by intros [= <- <-]|]. cbn [orb].
  destruct (Z.land x 7 <=? 3); [intros [= <- <-]; simpl; repeat split; lia|].
  destruct t2 as [|c3 t3]; [by intros [= <- <-]|].
  destruct (Z.ltb_spec (rune c3) 128); [by intros [= <- <-]|].
  destruct (191 <? rune c3); [by intros [= <- <-]|]. cbn [orb].
  intros [= <- <-]; simpl; repeat split; lia.
Qed.

(** The bytes of a rune that is no ASCII rune are no ASCII bytes. *)
Lemma lor_high t v :
  (t = tx \/ t = t2 \/ t = t3 \/ t = t4) -> 128 <= rune (byte (Z.lor t v)).
Proof.
  intros Ht. rewrite rune_byte.
  change 0xFF with (Z.ones 8). rewrite Z.land_ones by lia.
  assert (Z.testbit (Z.lor t v `mod` 2 ^ 8) 7 = true) as Hbit.
  { rewrite Z.mod_pow2_bits_low by lia. rewrite Z.lor_spec.
    destruct Ht as [->|[->|[->| ->]]]; reflexivity. }
  pose proof (Z.mod_pos_bound (Z.lor t v) (2 ^ 8) ltac:(lia)) as Hr.
  destruct (Z.lt_ge_cases (Z.lor t v `mod` 2 ^ 8) 128) as [Hlt|]; [|lia].
  rewrite Z.bits_above_log2 in Hbit; [done|lia|].
  destruct (Z.eq_dec (Z.lor t v `mod` 2 ^ 8) 0) as [->|]; [done|].
  apply Z.log2_lt_pow2; lia.
Qed.

Lemma not_upper_high c : 128 <= rune c -> ~ (65 <= Z.of_N (N_of_ascii c) <= 90).
Proof. unfold rune. lia. Qed.

Lemma AppendRune_lowerOnly r : ~ (65 <= r <= 90) -> lowerOnly (AppendRune r).
Proof.
  intros Hr. unfold AppendRune, encode3, encode4, rune1Max.
  destruct (Z.leb_spec 0 r), (Z.leb_spec r 0x7F); cbn [andb].
  1: { simpl. split; [|done]. fold (rune (byte r)). rewrite rune_byte.
       change 0xFF with (Z.ones 8). rewrite Z.land_ones, Z.mod_small by lia. done. }
  all: repeat case_match; cbn [lowerOnly]; repeat split; try done;
    apply not_upper_high, lor_high; auto.
Qed.

Lemma land_low a b k : 0 <= k -> 0 <= b < 2 ^ k -> Z.land (a * 2 ^ k) b = 0.
Proof.
  intros Hk Hb. apply Z.bits_inj'. intros n Hn. rewrite Z.land_spec, Z.bits_0.
  destruct (Z.lt_ge_cases n k) as [Hlt|Hge].
  - by rewrite Z.mul_pow2_bits_low.
  - rewrite andb_comm.
    destruct (Z.eq_dec b 0) as [->|Hb0]; [by rewrite Z.bits_0|].
    rewrite (Z.bits_above_log2 b n); [done|lia|].
    apply Z.lt_le_trans with k; [|done]. apply Z.log2_lt_pow2; lia.
Qed.

Lemma lor_shiftl a b k : 0 <= k -> 0 <= b < 2 ^ k -> Z.lor (Z.shiftl a k) b = a * 2 ^ k + b.
Proof.
  intros Hk Hb. rewrite Z.shiftl_mul_pow2 by done.
  symmetry. apply Z.add_nocarry_lor. by apply land_low.
Qed.

Lemma lor_sum a b k : 0 <= k -> 0 <= b < 2 ^ k -> Z.lor (a * 2 ^ k) b = a * 2 ^ k + b.
Proof.
  intros Hk Hb. symmetry. apply Z.add_nocarry_lor. by apply land_low.
Qed.

Lemma lor2 a b : 0 <= b < 64 -> Z.lor (Z.shiftl a 6) b = a * 64 + b.
Proof. intros Hb. by rewrite (lor_shiftl a b 6). Qed.

Lemma lor3 a b c :
  0 <= b < 64 -> 0 <= c < 64 ->
  Z.lor (Z.lor (Z.shiftl a 12) (Z.shiftl b 6)) c = a * 4096 + b * 64 + c.
Proof.
  intros Hb Hc. rewrite !Z.shiftl_mul_pow2 by lia.
  rewrite (lor_sum a (b * 2 ^ 6) 12) by lia.
  replace (a * 2 ^ 12 + b * 2 ^ 6) with ((a * 64 + b) * 2 ^ 6) by lia.
  rewrite lor_sum by lia. lia.
Qed.

Lemma lor4 a b c d :
  0 <= b < 64 -> 0 <= c < 64 -> 0 <= d < 64 ->
  Z.lor (Z.lor (Z.lor (Z.shiftl a 18) (Z.shiftl b 12)) (Z.shiftl c 6)) d
  = a * 262144 + b * 4096 + c * 64 + d.
Proof.
  intros Hb Hc Hd. rewrite !Z.shiftl_mul_pow2 by lia.
  rewrite (lor_sum a (b * 2 ^ 12) 18) by lia.
  replace (a * 2 ^ 18 + b * 2 ^ 12) with ((a * 64 + b) * 2 ^ 12) by lia.
  rewrite (lor_sum _ (c * 2 ^ 6) 12) by lia.
  replace ((a * 64 + b) * 2 ^ 12 + c * 2 ^ 6) with (((a * 64 + b) * 64 + c) * 2 ^ 6) by lia.
  rewrite lor_sum by lia. lia.
Qed.

Lemma land_maskx s : Z.land s maskx = s mod 64.
Proof. change maskx with (Z.ones 6). by rewrite Z.land_ones. Qed.

Lemma land_mask2 s : Z.land s mask2 = s mod 32.
Proof. change mask2 with (Z.ones 5). by rewrite Z.land_ones. Qed.

Lemma land_mask3 s : Z.land s mask3 = s mod 16.
Proof. change mask3 with (Z.ones 4). by rewrite Z.land_ones. Qed.

Lemma land_mask4 s : Z.land s mask4 = s mod 8.
Proof. change mask4 with (Z.ones 3). by rewrite Z.land_ones. Qed.

Lemma RuneLen_1 r : 0 <= r <= 0x7F -> RuneLen r = 1.
Proof.
  intros Hr. unfold RuneLen, rune1Max.
  destruct (Z.ltb_spec r 0); [lia|]. destruct (Z.leb_spec r 0x7F); [done|lia].
Qed.

Lemma RuneLen_2 r : 0x80 <= r <= 0x7FF -> RuneLen r = 2.
Proof.
  intros Hr. unfold RuneLen, rune1Max, rune2Max.
  destruct (Z.ltb_spec r 0); [lia|]. destruct (Z.leb_spec r 0x7F); [lia|].
  destruct (Z.leb_spec r 0x7FF); [done|lia].
Qed.

Lemma RuneLen_3 r : 0x800 <= r <= 0xD7FF \/ 0xE000 <= r <= 0xFFFF -> RuneLen r = 3.
Proof.
  intros Hr. unfold RuneLen, rune1Max, rune2Max, rune3Max, surrogateMin, surrogateMax.
  destruct (Z.ltb_spec r 0); [lia|]. destruct (Z.leb_spec r 0x7F); [lia|].
  destruct (Z.leb_spec r 0x7FF); [lia|].
  destruct (Z.leb_spec 0xD800 r), (Z.leb_spec r 0xDFFF); cbn [andb]; try lia;
    destruct (Z.leb_spec r 0xFFFF); try done; lia.
Qed.

Lemma RuneLen_4 r : 0x10000 <= r <= 0x10FFFF -> RuneLen r = 4.
Proof.
  intros Hr. unfold RuneLen, rune1Max, rune2Max, rune3Max, surrogateMin, surrogateMax, MaxRune.
  destruct (Z.ltb_spec r 0); [lia|]. destruct (Z.leb_spec r 0x7F); [lia|].
  destruct (Z.leb_spec r 0x7FF); [lia|].
  destruct (Z.leb_spec 0xD800 r), (Z.leb_spec r 0xDFFF); cbn [andb]; try lia;
    destruct (Z.leb_spec r 0xFFFF); try lia;
    destruct (Z.leb_spec r 0x10FFFF); try done; lia.
Qed.

(** One row of the table [first]: the size and the range it holds. *)
Ltac row x Hdec :=
  let b := eval vm_compute in (as_ <=? x) in
  change (as_ <=? x) with b in Hdec;
  let sz := eval vm_compute in (Z.land x 7) in
  change (Z.land x 7) with sz in Hdec;
  let accept := eval vm_compute in (acceptRanges (Z.shiftr x 4)) in
  change (acceptRanges (Z.shiftr x 4)) with accept in Hdec;
  cbv iota zeta in Hdec; cbn [fst snd] in Hdec;
  let b2 := eval vm_compute in (sz <=? 2) in
  change (sz <=? 2) with b2 in Hdec;
  let b3 := eval vm_compute in (sz <=? 3) in
  try change (sz <=? 3) with b3 in Hdec.

(** The bytes behind the first: each is there and in its range, or the
    rune is [RuneError]. *)
Ltac bytes Hdec :=
  repeat first
    [ progress cbv iota in Hdec
    | match type of Hdec with
      | (if Z.ltb ?x ?y then _ else _) = _ =>
          destruct (Z.ltb_spec x y); cbv iota in Hdec; [by injection Hdec as <- <-|]
      | (if orb (Z.ltb ?x ?y) _ then _ else _) = _ =>
          destruct (Z.ltb_spec x y); cbn [orb] in Hdec; cbv iota in Hdec;
          [by injection Hdec as <- <-|]
      | (match ?s with EmptyString => _ | String _ _ => _ end) = _ =>
          destruct s as [|? ?]; [by injection Hdec as <- <-|]
      end ].

Ltac ranges :=
  repeat match goal with
    | c : ascii |- _ =>
        lazymatch goal with
        | H : 0 <= rune c < 256 |- _ => fail
        | _ => pose proof (rune_range c)
        end
    end.

(** A rune that is read takes the number of bytes of its encoding:
    [utf8.RuneLen] gives back the width. *)
Lemma DecodeRuneInString_RuneLen a s c width :
  DecodeRuneInString (String a s) = (c, width) -> c <> RuneError ->
  RuneLen c = Z.of_nat width.
Proof.
  intros Hdec Hc. unfold DecodeRuneInString in Hdec.
  pose proof (rune_range a) as Ha.
  set (s0 := rune a) in *. clearbody s0.
  unfold first in Hdec.
  destruct (Z.ltb_spec s0 0x80).
  { vm_compute in Hdec. injection Hdec as <- <-. apply RuneLen_1. lia. }
  destruct (Z.ltb_spec s0 0xC2); [by injection Hdec as <- <-|].
  destruct (Z.ltb_spec s0 0xE0).
  { row s1 Hdec. bytes Hdec. injection Hdec as <- <-. ranges.
    unfold locb, hicb in *. rewrite land_mask2, land_maskx.
    rewrite lor2 by (apply Z.mod_pos_bound; lia).
    apply RuneLen_2. Z.div_mod_to_equations. lia. }
  destruct (Z.eqb_spec s0 0xE0).
  { row s2 Hdec. bytes Hdec. injection Hdec as <- <-. ranges.
    unfold locb, hicb in *. rewrite land_mask3, !land_maskx.
    rewrite lor3 by (apply Z.mod_pos_bound; lia).
    apply RuneLen_3. Z.div_mod_to_equations. lia. }
  destruct (Z.ltb_spec s0 0xED).
  { row s3 Hdec. bytes Hdec. injection Hdec as <- <-. ranges.
    unfold locb, hicb in *. rewrite land_mask3, !land_maskx.
    rewrite lor3 by (apply Z.mod_pos_bound; lia).
    apply RuneLen_3. Z.div_mod_to_equations. lia. }
  destruct (Z.eqb_spec s0 0xED).
  { row s4 Hdec. bytes Hdec. injection Hdec as <- <-. ranges.
    unfold locb, hicb in *. rewrite land_mask3, !land_maskx.
    rewrite lor3 by (apply Z.mod_pos_bound; lia).
    apply RuneLen_3. Z.div_mod_to_equations. lia. }
  destruct (Z.ltb_spec s0 0xF0).
  { row s3 Hdec. bytes Hdec. injection Hdec as <- <-. ranges.
    unfold locb, hicb in *. rewrite land_mask3, !land_maskx.
    rewrite lor3 by (apply Z.mod_pos_bound; lia).
    apply RuneLen_3. Z.div_mod_to_equations. lia. }
  destruct (Z.eqb_spec s0 0xF0).
  { row s5 Hdec. bytes Hdec. injection Hdec as <- <-. ranges.
    unfold locb, hicb in *. rewrite land_mask4, !land_maskx.
    rewrite lor4 by (apply Z.mod_pos_bound; lia).
    apply RuneLen_4. Z.div_mod_to_equations. lia. }
  destruct (Z.ltb_spec s0 0xF4).
  { row s6 Hdec. bytes Hdec. injection Hdec as <- <-. ranges.
    unfold locb, hicb in *. rewrite land_mask4, !land_maskx.
    rewrite lor4 by (apply Z.mod_pos_bound; lia).
    apply RuneLen_4. Z.div_mod_to_equations. lia. }
  destruct (Z.eqb_spec s0 0xF4).
  { row s7 Hdec. bytes Hdec. injection Hdec as <- <-. ranges.
    unfold locb, hicb in *. rewrite land_mask4, !land_maskx.
    rewrite lor4 by (apply Z.mod_pos_bound; lia).
    apply RuneLen_4. Z.div_mod_to_equations. lia. }
  by injection Hdec as <- <-.
Qed.

End Utf8Facts.

Section ToLowerFacts.

Import Strings.

Variable lowerCase : Z -> Z.

Lemma lowerByte_slash a : lowerByte a = "/"%char <-> a = "/"%char.
Proof.
  destruct a as [[] [] [] [] [] [] [] []]; vm_compute; split; congruence.
Qed.

Lemma lowerByte_lower c : ~ (65 <= Z.of_N (N_of_ascii (lowerByte c)) <= 90).
Proof.
  destruct c as [[] [] [] [] [] [] [] []]; vm_compute; intros [H1 H2];
    first [by apply H1 | by apply H2].
Qed.

Lemma lowerASCII_free s : free "/" (lowerASCII s) <-> free "/" s.
Proof.
  induction s as [|a s IH]; simpl; [done|].
  rewrite IH, lowerByte_slash. done.
Qed.

Lemma lowerASCII_lowerOnly s : lowerOnly (lowerASCII s).
Proof.
  induction s as [|a s IH]; simpl; [done|]. split; [apply lowerByte_lower | done].
Qed.

(** What [unicode.ToLower] leaves as it is, is no upper-case ASCII
    letter. *)
Lemma ToLower_fixed c : Unicode.ToLower lowerCase c = c -> ~ (65 <= c <= 90).
Proof.
  unfold Unicode.ToLower, Unicode.MaxASCII.
  destruct (Z.leb_spec c 0x7F); [|lia].
  destruct (Z.leb_spec 65 c), (Z.leb_spec c 90); simpl; lia.
Qed.

Lemma ToLower_not_upper c :
  lowerCaseTable lowerCase -> ~ (65 <= Unicode.ToLower lowerCase c <= 90).
Proof.
  intros Htable. unfold Unicode.ToLower, Unicode.MaxASCII.
  destruct (Z.leb_spec c 0x7F); [|apply Htable].
  destruct (Z.leb_spec 65 c), (Z.leb_spec c 90); simpl; lia.
Qed.

Lemma rune_slash a : Utf8.rune a = 47 <-> a = "/"%char.
Proof.
  split; [|by intros ->]. intros E. by apply rune_inj.
Qed.

Lemma high_not_slash a : 128 <= Utf8.rune a -> a <> "/"%char.
Proof. intros Ha ->. vm_compute in Ha. by apply Ha. Qed.

Lemma from_free k s : highBytes k s -> free "/" (from k s) -> free "/" s.
Proof.
  revert s. induction k as [|k IH]; intros s; [by destruct s|].
  destruct s as [|a s]; [done|]. simpl. intros [Ha Hs] Hfree.
  split; [by apply high_not_slash | by apply IH].
Qed.

(** The first loop on a slash: the rune is kept. *)
Lemma decode_slash s :
  Utf8.DecodeRuneInString (String "/" s) = (47, 1%nat).
Proof. reflexivity. Qed.

Lemma mapRunes_slash s : forall skip,
  highBytes skip s ->
  free "/" (mapRunes (Unicode.ToLower lowerCase) skip s) -> free "/" s.
Proof.
  induction s as [|a s IH]; intros skip Hhigh; [done|].
  destruct skip as [|skip].
  - cbn [mapRunes].
    destruct (Utf8.DecodeRuneInString (String a s)) as [c width] eqn:Hdec.
    rewrite free_app. intros [Hout Hrest].
    pose proof (DecodeRuneInString_width _ _ _ _ Hdec) as [_ Hw].
    split; [|by apply (IH (width - 1)%nat)].
    intros ->. rewrite decode_slash in Hdec. injection Hdec as <- <-.
    vm_compute in Hout. by destruct Hout as [Hout _].
  - cbn [mapRunes]. simpl in Hhigh. destruct Hhigh as [Ha Hs]. intros Hfree.
    split; [by apply high_not_slash | by apply (IH skip)].
Qed.

Lemma mapFirst_slash s : forall skip b rest,
  mapFirst (Unicode.ToLower lowerCase) skip s = Some (b, rest) ->
  highBytes skip s -> free "/" b -> free "/" rest -> free "/" s.
Proof.
  induction s as [|a s IH]; intros skip b rest; [done|].
  assert (forall k,
            match mapFirst (Unicode.ToLower lowerCase) k s with
            | Some (b0, rest0) => Some (String a b0, rest0)
            | None => None
            end = Some (b, rest) ->
            highBytes k s -> free "/" b -> free "/" rest -> free "/" (String a s)) as Hcont.
  { intros k Hk Hhigh Hb Hrest.
    destruct (mapFirst _ k s) as [[b0 rest0]|] eqn:E; [|done].
    injection Hk as <- <-. destruct Hb as [Ha Hb].
    split; [done | by apply (IH k b0 rest0)]. }
  destruct skip as [|skip].
  - cbn [mapFirst].
    destruct (Utf8.DecodeRuneInString (String a s)) as [c width] eqn:Hdec.
    pose proof (DecodeRuneInString_width _ _ _ _ Hdec) as [_ Hw].
    intros Hmap _.
    destruct ((Unicode.ToLower lowerCase c =? c) && negb (c =? Utf8.RuneError)) eqn:E1;
      [by apply (Hcont (width - 1)%nat)|].
    destruct ((c =? Utf8.RuneError) && negb (width =? 1)%nat
              && (Unicode.ToLower lowerCase c =? c)) eqn:E2;
      [by apply (Hcont (width - 1)%nat)|].
    assert ((if c =? Utf8.RuneError then width else Z.to_nat (Utf8.RuneLen c)) = width)
      as Hwidth.
    { destruct (Z.eqb_spec c Utf8.RuneError) as [|Hc]; [done|].
      rewrite (DecodeRuneInString_RuneLen _ _ _ _ Hdec Hc). apply Nat2Z.id. }
    cbv zeta in Hmap. rewrite Hwidth in Hmap.
    injection Hmap as <- <-. intros _ Hrest.
    split; [|by apply (from_free (width - 1))].
    intros ->. rewrite decode_slash in Hdec. injection Hdec as <- <-. done.
  - cbn [mapFirst]. intros Hmap [Ha Hs]. by apply (Hcont skip).
Qed.

(** A slash of the string is a slash of its lower case. *)
Lemma ToLower_slash s : free "/" (ToLower lowerCase s) -> free "/" s.
Proof.
  unfold ToLower. destruct (isASCII s); [by rewrite lowerASCII_free|].
  unfold Map.
  destruct (mapFirst _ 0 s) as [[b rest]|] eqn:E; [|done].
  rewrite free_app. intros [Hb Hrest].
  apply (mapFirst_slash s 0 b rest E); [done|done|].
  by apply (mapRunes_slash rest 0).
Qed.

Lemma byte_lowerOnly r :
  0 <= r < 128 -> ~ (65 <= r <= 90) -> lowerOnly (String (Utf8.byte r) EmptyString).
Proof.
  intros Hr Hup. split; [|done]. fold (Utf8.rune (Utf8.byte r)). rewrite rune_byte.
  change 0xFF with (Z.ones 8). rewrite Z.land_ones, Z.mod_small by lia. done.
Qed.

Lemma mapRunes_lowerOnly s : forall skip,
  lowerCaseTable lowerCase ->
  lowerOnly (mapRunes (Unicode.ToLower lowerCase) skip s).
Proof.
  induction s as [|a s IH]; intros skip table; [done|].
  destruct skip as [|skip]; cbn [mapRunes]; [|by apply IH].
  destruct (Utf8.DecodeRuneInString (String a s)) as [c width].
  rewrite lowerOnly_app. split; [|by apply IH].
  pose proof (ToLower_not_upper c table) as Hup.
  destruct (Z.leb_spec 0 (Unicode.ToLower lowerCase c)); [|done].
  unfold Utf8.RuneSelf. destruct (Z.ltb_spec (Unicode.ToLower lowerCase c) 0x80).
  - apply byte_lowerOnly; [lia | done].
  - by apply AppendRune_lowerOnly.
Qed.

Lemma kept_lowerOnly a s c width :
  Utf8.DecodeRuneInString (String a s) = (c, width) ->
  Unicode.ToLower lowerCase c = c ->
  ~ (65 <= Z.of_N (N_of_ascii a) <= 90).
Proof.
  intros Hdec Hfix. fold (Utf8.rune a).
  destruct (Z.lt_ge_cases (Utf8.rune a) 128) as [Ha|Ha]; [|lia].
  rewrite DecodeRuneInString_ascii in Hdec by done. injection Hdec as <- <-.
  by apply ToLower_fixed.
Qed.

Lemma mapFirst_lowerOnly s : forall skip,
  lowerCaseTable lowerCase ->
  highBytes skip s ->
  match mapFirst (Unicode.ToLower lowerCase) skip s with
  | Some (b, _) => lowerOnly b
  | None => lowerOnly s
  end.
Proof.
  induction s as [|a s IH]; intros skip table Hhigh; [done|].
  assert (forall k, ~ (65 <= Z.of_N (N_of_ascii a) <= 90) -> highBytes k s ->
            match
              match mapFirst (Unicode.ToLower lowerCase) k s with
              | Some (b0, rest0) => Some (String a b0, rest0)
              | None => None
              end
            with
            | Some (b, _) => lowerOnly b
            | None => lowerOnly (String a s)
            end) as Hcont.
  { intros k Ha Hk. specialize (IH k table Hk).
    destruct (mapFirst _ k s) as [[b0 rest0]|]; by split. }
  destruct skip as [|skip].
  - cbn [mapFirst].
    destruct (Utf8.DecodeRuneInString (String a s)) as [c width] eqn:Hdec.
    pose proof (DecodeRuneInString_width _ _ _ _ Hdec) as [_ Hw].
    destruct (Z.eqb_spec (Unicode.ToLower lowerCase c) c) as [Hfix|Hfix].
    + pose proof (kept_lowerOnly _ _ _ _ Hdec Hfix) as Ha.
      destruct (negb (c =? Utf8.RuneError)); cbn [andb]; [by apply Hcont|].
      destruct ((c =? Utf8.RuneError) && negb (width =? 1)%nat); cbn [andb];
        [by apply Hcont|].
      destruct (Z.leb_spec 0 (Unicode.ToLower lowerCase c)); [|done].
      apply AppendRune_lowerOnly. by apply ToLower_not_upper.
    + cbn [andb]. rewrite andb_false_r.
      destruct (Z.leb_spec 0 (Unicode.ToLower lowerCase c)); [|done].
      apply AppendRune_lowerOnly. by apply ToLower_not_upper.
  - cbn [mapFirst]. destruct Hhigh as [Ha Hs]. apply Hcont; [|done].
    by apply not_upper_high.
Qed.

(** No upper-case ASCII letter is left in the lower case of a string:
    of an ASCII string whatever the table, of any string by a table
    that has no such letter as a lower case. *)
Lemma ToLower_lowerOnly s :
  lowerCaseTable lowerCase \/ isASCII s = true -> lowerOnly (ToLower lowerCase s).
Proof.
  intros Htable. unfold ToLower.
  destruct (isASCII s); [apply lowerASCII_lowerOnly|].
  destruct Htable as [table|]; [|done].
  unfold Map. pose proof (mapFirst_lowerOnly s 0 table I) as H.
  destruct (mapFirst _ 0 s) as [[b rest]|]; [|done].
  rewrite lowerOnly_app. split; [done | by apply mapRunes_lowerOnly].
Qed.

End ToLowerFacts.

(** The table of the examples is one. *)
Lemma latin1_table : lowerCaseTable Unicode.latin1.
Proof.
  intros r. unfold Unicode.latin1.
  destruct (Z.leb_spec 0x41 r), (Z.leb_spec r 0x5A), (Z.leb_spec 0xC0 r),
    (Z.leb_spec r 0xD6), (Z.leb_spec 0xD8 r), (Z.leb_spec r 0xDE); simpl; lia.
Qed.


(** ** Facts about the decoder: the fuel is enough *)

Section JsonFacts.

Import Json.
Local Open Scope nat_scope.

Lemma skipSpace_length s : String.length (skipSpace s) <= String.length s.
Proof.
  induction s as [|c s IH]; simpl; [done|].
  destruct (isSpace c); simpl; lia.
Qed.

Lemma skip_length n s : String.length (skip n s) <= String.length s.
Proof.
  revert s. induction n as [|n IH]; intros [|c s]; simpl; try done.
  specialize (IH s). lia.
Qed.

Lemma map_result_Ok {A B} (f : A -> B) (x : result A) b rest :
  map_result f x = Ok b rest -> exists a, x = Ok a rest /\ b = f a.
Proof. destruct x; simpl; [|done]. intros [= <- <-]. eauto. Qed.

Lemma hex4_rest n acc s v rest :
  hex4 n acc s = Ok v rest -> String.length rest <= String.length s.
Proof.
  revert acc s. induction n as [|n IH]; intros acc s; simpl.
  - by intros [= _ ->].
  - destruct s as [|c s]; [done|]. destruct (hexval c); [|done].
    intros H%IH. simpl. lia.
Qed.

Lemma stringLit_S fuel s :
  stringLit (S fuel) s
  = match s with
    | EmptyString => Err ErrUnexpectedEOF
    | String c s' =>
        if decide (c = quote) then Ok EmptyString s'
        else if decide (c = "\"%char) then
          match s' with
          | EmptyString => Err ErrUnexpectedEOF
          | String e s'' =>
              match simpleEscape e with
              | Some b => map_result (bytes [b]) (stringLit fuel s'')
              | None =>
                  if decide (e = "u"%char) then
                    match hex4 4 0 s'' with
                    | Ok rr rest =>
                        if isSurrogate rr then
                          let dec := decodeRune16 rr (getu4 rest) in
                          if (dec =? ReplacementChar)%Z then
                            map_result (bytes (encodeRune ReplacementChar))
                                       (stringLit fuel rest)
                          else
                            map_result (bytes (encodeRune dec))
                                       (stringLit fuel (skip 6 rest))
                        else
                          map_result (bytes (encodeRune rr)) (stringLit fuel rest)
                    | Err e => Err e
                    end
                  else Err SyntaxError
              end
          end
        else if (byte c <? 32)%Z then Err SyntaxError
        else if (byte c <? 128)%Z then map_result (String c) (stringLit fuel s')
        else
          match utf8Len s with
          | O => map_result (bytes (encodeRune ReplacementChar)) (stringLit fuel s')
          | n => map_result (append (take n s)) (stringLit fuel (skip n s))
          end
    end.
Proof. reflexivity. Qed.

(** The rest of a string literal is shorter than what it was read
    from. *)
Lemma stringLit_rest fuel : forall s k rest,
  stringLit fuel s = Ok k rest -> String.length rest < String.length s.
Proof.
  induction fuel as [|fuel IH]; intros s k rest; [done|].
  rewrite stringLit_S. cbv zeta. destruct s as [|c s']; [done|].
  repeat (case_decide || case_match); subst; try done;
    try (intros [= _ <-]; simpl; lia);
    intros (? & Hrec%IH & _)%map_result_Ok;
    repeat match goal with
      | H : hex4 _ _ _ = Ok _ _ |- _ => apply hex4_rest in H
      end;
    try (pose proof (skip_length 6 rest0));
    try match goal with
      | H : String.length _ < String.length (skip ?n (String ?c ?s)) |- _ =>
          pose proof (skip_length n (String c s))
      end;
    simpl in *; try lia.
Qed.

(** More fuel than the length of the input changes nothing. *)
Lemma stringLit_fuel fuel : forall s,
  String.length s < fuel -> stringLit fuel s = stringLit (S fuel) s.
Proof.
  induction fuel as [|fuel IH]; intros s Hlen; [lia|].
  rewrite (stringLit_S fuel s), (stringLit_S (S fuel) s). cbv zeta.
  destruct s as [|c s']; [done|]. simpl in Hlen.
  repeat (case_decide || case_match); subst; try done;
    repeat match goal with
      | H : hex4 _ _ _ = Ok _ _ |- _ => apply hex4_rest in H
      end;
    f_equal; apply IH;
    try match goal with
      | |- String.length (skip ?n ?s) < _ => pose proof (skip_length n s)
      end;
    cbn [String.length] in *; try lia.
  match goal with
  | |- String.length (skip (S ?n) (String _ ?s)) < _ =>
      cbn [skip]; pose proof (skip_length n s); lia
  end.
Qed.

Lemma stringLit_enough fuel s :
  String.length s < fuel -> stringLit fuel s = stringLit (S (String.length s)) s.
Proof.
  intros Hlen. induction fuel as [|fuel IH]; [lia|].
  destruct (decide (String.length s < fuel)) as [Hlt|Hge].
  - rewrite <- stringLit_fuel by done. by apply IH.
  - by replace fuel with (String.length s) by lia.
Qed.

Lemma skipDigits_length s : String.length (skipDigits s) <= String.length s.
Proof.
  induction s as [|c s IH]; simpl; [done|].
  destruct (isDigit c); simpl; lia.
Qed.

Lemma exponent_rest s u rest :
  exponent s = Ok u rest -> String.length rest < String.length s.
Proof.
  unfold exponent. destruct s as [|c t]; [done|].
  case_decide.
  - destruct t as [|d t']; [done|]. destruct (isDigit d); [|done].
    intros [= _ <-]. pose proof (skipDigits_length t'). simpl. lia.
  - destruct (isDigit c); [|done].
    intros [= _ <-]. pose proof (skipDigits_length t). simpl. lia.
Qed.

Lemma fraction_rest s u rest :
  fraction s = Ok u rest -> String.length rest < String.length s.
Proof.
  unfold fraction. destruct s as [|d t]; [done|]. destruct (isDigit d); [|done].
  pose proof (skipDigits_length t) as Hlen.
  destruct (skipDigits t) as [|e r] eqn:E.
  - intros [= _ <-]. simpl. lia.
  - destruct (isE e).
    + intros Hrest%exponent_rest. simpl in *. lia.
    + intros [= _ <-]. simpl in *. lia.
Qed.

Lemma afterInt_rest s u rest :
  afterInt s = Ok u rest -> String.length rest <= String.length s.
Proof.
  unfold afterInt. destruct s as [|c t]; [by intros [= _ <-]|].
  case_decide.
  - intros Hrest%fraction_rest. simpl. lia.
  - destruct (isE c).
    + intros Hrest%exponent_rest. simpl. lia.
    + by intros [= _ <-].
Qed.

Lemma number_rest s u rest :
  number s = Ok u rest -> String.length rest < String.length s.
Proof.
  unfold number. destruct s as [|d t]; [done|].
  case_decide.
  - intros Hrest%afterInt_rest. simpl. lia.
  - destruct (between 49 57 d); [|done].
    intros Hrest%afterInt_rest. pose proof (skipDigits_length t). simpl. lia.
Qed.

Lemma literal_rest lit : forall s u rest,
  literal lit s = Ok u rest -> String.length rest <= String.length s.
Proof.
  induction lit as [|l lit IH]; intros s u rest; simpl.
  - by intros [= _ <-].
  - destruct s as [|c s']; [done|]. case_decide; [|done].
    intros Hrest%IH. simpl. lia.
Qed.

Lemma skipSpace_cons s c t :
  skipSpace s = String c t -> String.length t < String.length s.
Proof.
  intros E. pose proof (skipSpace_length s) as Hlen. rewrite E in Hlen.
  simpl in Hlen. lia.
Qed.

(** What the hypotheses on the parts of the input say about lengths. *)
Ltac lengths :=
  repeat match goal with
    | H : skipSpace _ = String _ _ |- _ => apply skipSpace_cons in H
    | H : stringLit _ _ = Ok _ _ |- _ => apply stringLit_rest in H
    | H : number _ = Ok _ _ |- _ => apply number_rest in H
    | H : literal _ _ = Ok _ _ |- _ => apply literal_rest in H
    | H : map_result _ _ = Ok _ _ |- _ => apply map_result_Ok in H as (? & H & _)
    end;
  cbn [String.length] in *.

(** A value, a run of members and a run of elements each leave less
    than they were read from. *)
Lemma scanValue_rest fuel : forall depth s,
  (forall v rest, scanValue fuel depth s = Ok v rest -> String.length rest < String.length s)
  /\ (forall ms rest, scanMembers fuel depth s = Ok ms rest -> String.length rest < String.length s)
  /\ (forall es rest, scanElements fuel depth s = Ok es rest -> String.length rest < String.length s).
Proof.
  induction fuel as [|fuel IH]; intros depth s; [done|].
  assert (forall depth s v rest, scanValue fuel depth s = Ok v rest ->
            String.length rest < String.length s) as IHv
    by (intros d' s'; apply (proj1 (IH d' s'))).
  assert (forall depth s v rest, scanMembers fuel depth s = Ok v rest ->
            String.length rest < String.length s) as IHm
    by (intros d' s'; apply (proj1 (proj2 (IH d' s')))).
  assert (forall depth s v rest, scanElements fuel depth s = Ok v rest ->
            String.length rest < String.length s) as IHe
    by (intros d' s'; apply (proj2 (proj2 (IH d' s')))).
  clear IH. split; [|split]; intros x rest; cbn [scanValue scanMembers scanElements];
    repeat (case_decide || case_match); subst; try done;
    intros Hres; try injection Hres as <- <-; lengths;
    repeat match goal with
      | H : scanValue fuel _ _ = Ok _ _ |- _ => apply IHv in H
      | H : scanMembers fuel _ _ = Ok _ _ |- _ => apply IHm in H
      | H : scanElements fuel _ _ = Ok _ _ |- _ => apply IHe in H
      end;
    cbn [String.length] in *; lia.
Qed.

(** Fuel above twice the length of the input is as good as any more. *)
Lemma scanValue_fuel fuel : forall fuel' depth s,
  (2 * String.length s < fuel -> 2 * String.length s < fuel' ->
     scanValue fuel depth s = scanValue fuel' depth s)
  /\ (2 * String.length s < fuel -> 2 * String.length s < fuel' ->
        scanMembers fuel depth s = scanMembers fuel' depth s)
  /\ (2 * String.length s + 1 < fuel -> 2 * String.length s + 1 < fuel' ->
        scanElements fuel depth s = scanElements fuel' depth s).
Proof.
  induction fuel as [|fuel IH]; intros fuel' depth s; [split; [|split]; lia|].
  destruct fuel' as [|fuel']; [split; [|split]; lia|].
  assert (forall depth s, 2 * String.length s < fuel -> 2 * String.length s < fuel' ->
            scanValue fuel depth s = scanValue fuel' depth s) as IHv
    by (intros d' s'; apply (proj1 (IH fuel' d' s'))).
  assert (forall depth s, 2 * String.length s < fuel -> 2 * String.length s < fuel' ->
            scanMembers fuel depth s = scanMembers fuel' depth s) as IHm
    by (intros d' s'; apply (proj1 (proj2 (IH fuel' d' s')))).
  assert (forall depth s, 2 * String.length s + 1 < fuel -> 2 * String.length s + 1 < fuel' ->
            scanElements fuel depth s = scanElements fuel' depth s) as IHe
    by (intros d' s'; apply (proj2 (proj2 (IH fuel' d' s')))).
  clear IH.
  pose proof (fun depth s => proj1 (scanValue_rest fuel' depth s)) as Hrest.
  split; [|split]; intros Hlen Hlen'; cbn [scanValue scanMembers scanElements].
  - destruct (skipSpace s) as [|c s1] eqn:E; [done|]. apply skipSpace_cons in E.
    repeat case_decide; try done; case_match; try done.
    + destruct (skipSpace s1) as [|c1 s2]; [done|]. case_decide; [done|].
      by rewrite IHm by lia.
    + destruct (skipSpace s1) as [|c1 s2]; [done|]. case_decide; [done|].
      by rewrite IHe by lia.
  - destruct (skipSpace s) as [|c s1] eqn:E; [done|]. apply skipSpace_cons in E.
    case_decide; [|done].
    destruct (stringLit _ s1) as [key s2|] eqn:Ekey; [|done].
    apply stringLit_rest in Ekey.
    destruct (skipSpace s2) as [|c2 s3] eqn:E2; [done|]. apply skipSpace_cons in E2.
    case_decide; [|done]. rewrite IHv by lia.
    destruct (scanValue fuel' depth s3) as [v s4|] eqn:Ev; [|done]. apply Hrest in Ev.
    destruct (skipSpace s4) as [|c4 s5] eqn:E4; [done|]. apply skipSpace_cons in E4.
    case_decide; [|done]. by rewrite IHm by lia.
  - rewrite IHv by lia.
    destruct (scanValue fuel' depth s) as [v s1|] eqn:Ev; [|done]. apply Hrest in Ev.
    destruct (skipSpace s1) as [|c s2] eqn:E; [done|]. apply skipSpace_cons in E.
    case_decide; [|done]. by rewrite IHe by lia.
Qed.

(** [readValue] gives its parser enough fuel: with any more the
    result is the same. *)
Lemma readValue_fuel body fuel :
  2 * String.length body < fuel ->
  scanValue fuel 0 body = scanValue (S (2 * String.length body)) 0 body.
Proof. intros Hlen. apply scanValue_fuel; lia. Qed.

End JsonFacts.

(** A path, split, is put together again by [Join]; no segment holds
    the separator; a path is its trimmed form between two runs of
    slashes. *)
Lemma Join_Split s c : Join (Strings.Split s c) c = s.
Proof.
  induction s as [|a s IH]; [done|]. simpl.
  pose proof (Split_nonempty s c) as Hne.
  destruct (decide (a = c)) as [->|Hac].
  - destruct (Strings.Split s c) as [|seg rest] eqn:E; [done|].
    change (Join (EmptyString :: seg :: rest) c) with (String c (Join (seg :: rest) c)).
    by rewrite IH.
  - destruct (Strings.Split s c) as [|seg rest] eqn:E; [done|].
    destruct rest as [|seg' rest].
    + simpl in *. by rewrite IH.
    + change (Join (String a seg :: seg' :: rest) c)
        with (String a (Join (seg :: seg' :: rest) c)).
      by rewrite IH.
Qed.

(** No segment holds the separator. *)
Lemma Split_segments_free s c : Forall (free c) (Strings.Split s c).
Proof.
  induction s as [|a s IH]; simpl.
  - by constructor.
  - destruct (decide (a = c)) as [->|Hac]; [by constructor|].
    destruct (Strings.Split s c) as [|seg rest]; [by repeat constructor|].
    apply Forall_cons in IH as [Hseg Hrest]. by constructor.
Qed.

Lemma trimLeftByte_slashes s :
  exists n, s = slashes n +:+ Strings.trimLeftByte s "/".
Proof.
  induction s as [|a s [n IH]]; [by exists O|]. simpl.
  destruct (decide (a = "/"%char)) as [->|Ha].
  - exists (S n). simpl slashes. rewrite append_cons. by f_equal.
  - by exists O.
Qed.

Lemma trimRightByte_slashes s :
  exists m, s = Strings.trimRightByte s "/" +:+ slashes m.
Proof.
  induction s as [|a s [m IH]]; [by exists O|]. simpl.
  destruct (Strings.trimRightByte s "/") as [|b u] eqn:E.
  - destruct (decide (a = "/"%char)) as [->|Ha].
    + exists (S m). change (String "/" s = String "/" (slashes m)).
      f_equal. exact IH.
    + exists m. rewrite append_cons. f_equal. exact IH.
  - exists m. rewrite append_cons. f_equal. exact IH.
Qed.

Lemma Trim_slashes path :
  exists n m, path = slashes n +:+ Strings.Trim path "/" +:+ slashes m.
Proof.
  destruct (trimRightByte_slashes path) as [m Hm].
  destruct (trimLeftByte_slashes (Strings.trimRightByte path "/")) as [n Hn].
  exists n, m. unfold Strings.Trim. by rewrite <- append_assoc, <- Hn.
Qed.

(** The paths the route shapes are written as.  [/{entity}] splits
    into the one segment [entity], [/{entity}/{id}] into the two
    segments [entity] and [id], for an entity name and an ID segment
    that hold no slash. *)
Lemma segmentsOf_collection entity :
  free "/" entity -> entity <> EmptyString ->
  segmentsOf (String "/" entity) = [entity].
Proof.
  intros Hfree Hne. unfold segmentsOf. rewrite Trim_cons. unfold Strings.Trim.
  rewrite <- (append_nil_r entity) at 1.
  assert (Strings.trimRightByte (EmptyString +:+ entity) "/" = EmptyString +:+ entity) as E
    by by apply trimRightByte_free_last.
  change (EmptyString +:+ entity) with entity in E.
  rewrite append_nil_r, E.
  rewrite <- (append_nil_r entity) at 1.
  rewrite trimLeftByte_free, append_nil_r by done.
  by apply Split_free.
Qed.

Lemma segmentsOf_item entity idSeg :
  free "/" entity -> entity <> EmptyString ->
  free "/" idSeg -> idSeg <> EmptyString ->
  segmentsOf (String "/" entity +:+ String "/" idSeg) = [entity; idSeg].
Proof.
  intros He Hne Hi Hni. unfold segmentsOf.
  rewrite append_cons, Trim_cons. unfold Strings.Trim.
  assert (entity +:+ String "/" idSeg = (entity +:+ "/") +:+ idSeg) as ->
    by by rewrite append_assoc.
  rewrite trimRightByte_free_last by done.
  rewrite append_assoc, trimLeftByte_free by done.
  change ("/" +:+ idSeg) with (String "/" idSeg).
  rewrite Split_app by done. by rewrite Split_free.
Qed.

(** ** Facts about the handlers *)

Section HandlerFacts.

Variable order : nat -> gmap string Property -> list (string * Property).
Hypothesis order_sound : RangeOrder order.

(** The insertions of [dummyData] in any order that visits every
    property once build the same object. *)
Lemma foldl_insert_placeholders (kvs : list (string * Property)) (acc : gmap string value) :
  NoDup kvs.*1 ->
  foldl (fun data '(key, prop) => <[key := dummyValue (PropertyType prop)]> data) acc kvs
  = ((fun prop => dummyValue (PropertyType prop)) <$> (list_to_map kvs : gmap string Property)) ∪ acc.
Proof.
  revert acc. induction kvs as [|[key prop] kvs IH]; intros acc Hnd.
  - simpl. by rewrite fmap_empty, (left_id_L ∅ (∪)).
  - apply NoDup_cons in Hnd as [Hkey Hnd]. simpl.
    rewrite IH by done. rewrite fmap_insert, <- insert_union_l.
    rewrite insert_union_r; [done|].
    rewrite lookup_fmap. by rewrite (not_elem_of_list_to_map_1 kvs key Hkey).
Qed.

Lemma dummyData_run schema t :
  dummyData order (Some schema) t = (inr (placeholders schema), synthesized 1 t).
Proof.
  unfold dummyData, bind, range, ret. simpl. do 2 f_equal.
  pose proof (order_sound (ranges t) (Properties schema)) as Hperm.
  rewrite foldl_insert_placeholders.
  - rewrite (right_id_L ∅ (∪)). unfold placeholders. f_equal.
    rewrite (list_to_map_proper _ (map_to_list (Properties schema))); [|..|done].
    + apply list_to_map_to_list.
    + rewrite Hperm. apply NoDup_fst_map_to_list.
  - rewrite Hperm. apply NoDup_fst_map_to_list.
Qed.

Lemma listLoop_run schema n : forall i acc t,
  listLoop order schema n i acc t
  = (inr (acc ++ numbered (placeholders schema) n i)%list, synthesized n t).
Proof.
  induction n as [|n IH]; intros i acc t; simpl.
  - unfold ret, synthesized. rewrite app_nil_r. by destruct t.
  - unfold bind. rewrite dummyData_run, IH, <- app_assoc. simpl.
    f_equal. unfold synthesized. simpl. f_equal; lia.
Qed.

Lemma isIntegerExpected_true schema prop :
  Properties schema !! "id" = Some prop -> PropertyType prop = "integer" ->
  isIntegerExpected schema = true.
Proof.
  intros Hid Hty. unfold isIntegerExpected. rewrite Hid. by apply bool_decide_eq_true_2.
Qed.

(** [single] on a schema with an integer [id]. *)
Lemma single_integer schema requestedID t :
  isIntegerExpected schema = true ->
  single order schema requestedID t
  = (match Strconv.Atoi requestedID with
     | None => inl {| Status := StatusBadRequest;
                      Body := Text "Invalid ID format: expected integer" |}
     | Some id => inr (PObject (<["id" := VInt id]> (placeholders schema)))
     end, synthesized 1 t).
Proof.
  intros Hint. unfold single, bind. rewrite dummyData_run, Hint.
  by destruct (Strconv.Atoi requestedID).
Qed.

(** [single] on any other schema: a second loop looks for the field. *)
Lemma single_string schema requestedID t :
  isIntegerExpected schema = false ->
  single order schema requestedID t
  = (inr (PObject (<[findStringKey (order (S (ranges t)) (Properties schema)) "id" false
                     := VString requestedID]> (placeholders schema))),
     {| ranges := S (S (ranges t)); synths := S (synths t) |}).
Proof.
  intros Hint. unfold single, bind. rewrite dummyData_run, Hint. reflexivity.
Qed.

End HandlerFacts.

(** What the loop of [findStringKey] computes: [id] as soon as the scan
    meets a string-typed [id]; else the last string-typed key of the
    scan; else the key it started from. *)
Lemma findStringKey_id kvs stringKey :
  ("id", {| PropertyType := "string" |}) ∈ kvs ->
  findStringKey kvs stringKey false = "id".
Proof.
  revert stringKey. induction kvs as [|[key [type]] kvs IH]; intros stringKey Hin.
  - by apply elem_of_nil in Hin.
  - simpl. destruct (decide (key = "id" ∧ type = "string")) as [[-> _]|Hno]; [done|].
    apply elem_of_cons in Hin as [[= <- <-]|Hin]; [by destruct Hno|].
    destruct (decide (type = "string" ∧ false = false)); by apply IH.
Qed.

Lemma findStringKey_last kvs stringKey :
  ("id", {| PropertyType := "string" |}) ∉ kvs ->
  findStringKey kvs stringKey false = default stringKey (lastString kvs).
Proof.
  revert stringKey. induction kvs as [|[key [type]] kvs IH]; intros stringKey Hin; [done|].
  apply not_elem_of_cons in Hin as [Hhd Hin]. simpl.
  rewrite decide_False by (intros [-> ->]; by destruct Hhd).
  destruct (decide (type = "string")) as [->|Hty].
  - rewrite decide_True by done. rewrite IH by done. by destruct (lastString kvs).
  - rewrite decide_False by (by intros [? _]). rewrite IH by done.
    by destruct (lastString kvs).
Qed.

Lemma matches_one entity : matches [entity] 1 entity = true.
Proof. unfold matches. simpl. by rewrite !bool_decide_eq_true_2. Qed.

Lemma matches_two entity idSeg : matches [entity; idSeg] 2 entity = true.
Proof. unfold matches. simpl. by rewrite !bool_decide_eq_true_2. Qed.

Lemma matches_two_one entity idSeg : matches [entity; idSeg] 1 entity = false.
Proof. reflexivity. Qed.

(** The handler reads the path through its segments only. *)
Lemma catchAllHandler_segments lowerCase order currentSchema r r' t :
  Method r = Method r' -> segmentsOf (Path r) = segmentsOf (Path r') ->
  catchAllHandler lowerCase order currentSchema r t = catchAllHandler lowerCase order currentSchema r' t.
Proof.
  destruct r as [method path body], r' as [method' path' body'].
  unfold segmentsOf. simpl. intros <- Hseg.
  unfold catchAllHandler. destruct currentSchema as [schema|]; [|done].
  cbn [Method Path]. by rewrite Hseg.
Qed.

(** Unfolding the handler on a loaded schema, the path already split. *)
Ltac route Hseg :=
  unfold catchAllHandler, encode; cbn [Method Path]; cbv zeta;
  match type of Hseg with
  | segmentsOf ?path = _ =>
      change (Strings.Split (Strings.Trim path "/") "/") with (segmentsOf path)
  end;
  rewrite Hseg;
  match goal with
  | |- context [Strings.ToLower ?lowerCase (Title ?schema) +:+ "s"] =>
      change (Strings.ToLower lowerCase (Title schema) +:+ "s")
        with (entityOf lowerCase schema)
  end;
  rewrite ?matches_one, ?matches_two_one, ?matches_two;
  unfold MethodGet, MethodPost, MethodPut, MethodDelete;
  repeat (first [rewrite decide_True by done | rewrite decide_False by done]).

Lemma upload_ok currentSchema r schema :
  Method r = MethodPost -> Json.Decode (RequestBody r) = inr schema ->
  uploadHandler currentSchema r
  = ({| Status := StatusOK;
        Body := JSON (PMessage {[ "message" := "Schema uploaded successfully";
                                  "title" := Title schema ]}) |},
     Some schema).
Proof.
  intros Hm Hdec. unfold uploadHandler.
  rewrite decide_False by (by intros []). by rewrite Hdec.
Qed.

(** [POST] never looks at the path. *)
Lemma post_any_path lowerCase order schema r t :
  RangeOrder order -> Method r = MethodPost ->
  catchAllHandler lowerCase order (Some schema) r t
  = ({| Status := StatusOK;
        Body := JSON (PObject (<["id" := VInt 1]> (placeholders schema))) |},
     synthesized 1 t).
Proof.
  intros Hord Hm. destruct r as [method path body]. simpl in Hm. subst.
  unfold catchAllHandler, encode. cbn [Method Path]. cbv zeta.
  unfold MethodGet, MethodPost.
  rewrite decide_False by done. rewrite decide_True by done.
  unfold bind. by rewrite dummyData_run.
Qed.

(** The field GET and PUT overwrite with a string ID: [id] if the
    schema declares it as [string]; else the last string-typed property
    of the scan; else [id]. *)
Lemma string_id_field lowerCase order schema r idSeg t :
  RangeOrder order ->
  isIntegerExpected schema = false ->
  Method r = MethodGet \/ Method r = MethodPut ->
  segmentsOf (Path r) = [entityOf lowerCase schema; idSeg] ->
  let kvs := order (S (ranges t)) (Properties schema) in
  let stringKey :=
    if decide (Properties schema !! "id" = Some {| PropertyType := "string" |})
    then "id" else default "id" (lastString kvs) in
  (catchAllHandler lowerCase order (Some schema) r t).1
  = {| Status := StatusOK;
       Body := JSON (PObject (<[stringKey := VString idSeg]> (placeholders schema))) |}.
Proof.
  intros Hord Hint Hm Hseg kvs stringKey.
  assert (findStringKey kvs "id" false = stringKey) as <-.
  { unfold stringKey. pose proof (Hord (S (ranges t)) (Properties schema)) as Hperm.
    fold kvs in Hperm. case_decide as Hid.
    - apply findStringKey_id. rewrite Hperm. by apply elem_of_map_to_list.
    - apply findStringKey_last. rewrite Hperm. by rewrite elem_of_map_to_list. }
  destruct r as [method path body]. simpl in Hm, Hseg.
  destruct Hm as [-> | ->]; route Hseg; simpl; unfold bind;
    by rewrite single_string.
Qed.

(** ** The tests of [main_test.go], replayed *)

Example test_upload_successful :
  uploadHandler None (upload userSchemaJSON)
  = ({| Status := 200;
        Body := JSON (PMessage {[ "message" := "Schema uploaded successfully";
                                  "title" := "User" ]}) |},
     Some userSchema).
Proof. by vm_compute. Qed.

Example test_upload_invalid_method :
  Status (uploadHandler None (request "GET" "/upload")).1 = 405.
Proof. reflexivity. Qed.

Example test_upload_invalid_json :
  Status (uploadHandler None (upload "{invalid json")).1 = 400.
Proof. reflexivity. Qed.

Example test_no_schema_loaded lowerCase :
  (catchAllHandler lowerCase keyOrder None (request "GET" "/users") start).1
  = {| Status := 400;
       Body := Text "No schema uploaded. Please POST your JSON schema to /upload" |}.
Proof. reflexivity. Qed.

Example test_get_list lowerCase :
  (catchAllHandler lowerCase keyOrder (Some userSchema) (request "GET" "/users") start).1
  = {| Status := 200;
       Body := JSON (PList (numbered (placeholders userSchema) 3 1)) |}.
Proof. by vm_compute. Qed.

Example test_get_single lowerCase :
  (catchAllHandler lowerCase keyOrder (Some userSchema) (request "GET" "/users/123") start).1
  = {| Status := 200;
       Body := JSON (PObject {[ "id" := VInt 123; "name" := VString "example";
                                "email" := VString "example" ]}) |}.
Proof. by vm_compute. Qed.

Example test_get_invalid_id lowerCase :
  Status (catchAllHandler lowerCase keyOrder (Some userSchema) (request "GET" "/users/abc") start).1
  = 400.
Proof. by vm_compute. Qed.

Example test_get_nonexistent_entity lowerCase :
  Status (catchAllHandler lowerCase keyOrder (Some userSchema) (request "GET" "/products") start).1
  = 404.
Proof. by vm_compute. Qed.

Example test_post lowerCase :
  (catchAllHandler lowerCase keyOrder (Some userSchema) (request "POST" "/users") start).1
  = {| Status := 200;
       Body := JSON (PObject {[ "id" := VInt 1; "name" := VString "example";
                                "email" := VString "example" ]}) |}.
Proof. by vm_compute. Qed.

Example test_put lowerCase :
  (catchAllHandler lowerCase keyOrder (Some userSchema) (request "PUT" "/users/456") start).1
  = {| Status := 200;
       Body := JSON (PObject {[ "id" := VInt 456; "name" := VString "example";
                                "email" := VString "example" ]}) |}.
Proof. by vm_compute. Qed.

Example test_put_invalid_id lowerCase :
  Status (catchAllHandler lowerCase keyOrder (Some userSchema) (request "PUT" "/users/abc") start).1
  = 400.
Proof. by vm_compute. Qed.

Example test_delete lowerCase :
  (catchAllHandler lowerCase keyOrder (Some userSchema) (request "DELETE" "/users/789") start).1
  = {| Status := 200;
       Body := JSON (PMessage {[ "message" := "Deleted successfully" ]}) |}.
Proof. by vm_compute. Qed.

Example test_delete_invalid_id lowerCase :
  Status (catchAllHandler lowerCase keyOrder (Some userSchema) (request "DELETE" "/users/abc") start).1
  = 400.
Proof. by vm_compute. Qed.

Example test_unsupported_method lowerCase :
  Status (catchAllHandler lowerCase keyOrder (Some userSchema) (request "PATCH" "/users/1") start).1
  = 405.
Proof. by vm_compute. Qed.

(** A few more runs of the library models. *)
Example Trim_Split_ex : segmentsOf "//users/12/" = ["users"; "12"].
Proof. reflexivity. Qed.

Example Split_inner_ex : Strings.Split "a//b" "/" = ["a"; EmptyString; "b"].
Proof. reflexivity. Qed.

(** [strings.ToLower]: an ASCII string, whatever the table; a title
    with a letter of two bytes; a small letter of two bytes, kept, in
    front of a capital; the Kelvin sign U+212A, whose lower case is
    the ASCII letter [k], under a table that has this row; a byte that
    is no UTF-8, which comes back as U+FFFD, at the head of the string
    and behind a capital of two bytes; and the entity name of the title
    [Elan] with its accent. *)
Example ToLower_ex lowerCase :
  Strings.ToLower lowerCase "HeLLo/Wor1d" = "hello/wor1d"
  /\ Strings.ToLower Unicode.latin1 elan = String "195" (String "169" "lan")
  /\ Strings.ToLower Unicode.latin1 (String "195" (String "169" "B"))
     = String "195" (String "169" "b")
  /\ Strings.ToLower (fun r => if r =? 0x212A then 0x6B else r)
       (String "226" (String "132" (String "170" "M")))
     = "km"
  /\ Strings.ToLower Unicode.latin1 (String "255" "A/b")
     = String "239" (String "191" (String "189" "a/b"))
  /\ Strings.ToLower Unicode.latin1 (String "195" (String "137" (String "255" "Q")))
     = String "195" (String "169" (String "239" (String "191" (String "189" "q"))))
  /\ entityOf Unicode.latin1 elanSchema = elans.
Proof. repeat split; by vm_compute. Qed.

Example Utf8_ex :
  Utf8.DecodeRuneInString (String "226" (String "130" (String "172" "x"))) = (0x20AC, 3%nat)
  /\ Utf8.DecodeRuneInString (String "192" (String "128" EmptyString)) = (Utf8.RuneError, 1%nat)
  /\ Utf8.DecodeRuneInString (String "237" (String "160" (String "128" EmptyString)))
     = (Utf8.RuneError, 1%nat)
  /\ Utf8.DecodeRuneInString (String "226" (String "130" EmptyString)) = (Utf8.RuneError, 1%nat)
  /\ Utf8.DecodeRuneInString "a" = (97, 1%nat)
  /\ Utf8.AppendRune 0x20AC = String "226" (String "130" (String "172" EmptyString))
  /\ Utf8.AppendRune 0xE9 = String "195" (String "169" EmptyString)
  /\ Utf8.AppendRune 0xD800 = String "239" (String "191" (String "189" EmptyString))
  /\ Utf8.AppendRune 0x1F600
     = String "240" (String "159" (String "152" (String "128" EmptyString))).
Proof. repeat split; by vm_compute. Qed.

(** The routes of a title that is not ASCII: the entity name is the
    lower case by the table, here of the examples. *)
Example test_title_with_accent :
  Status (catchAllHandler Unicode.latin1 keyOrder (Some elanSchema)
            (request "GET" ("/" +:+ elans)) start).1 = 200
  /\ Status (catchAllHandler Unicode.latin1 keyOrder (Some elanSchema)
               (request "GET" ("/" +:+ elan +:+ "s")) start).1 = 404
  /\ Status (catchAllHandler Unicode.latin1 keyOrder (Some elanSchema)
               (request "GET" ("/" +:+ elans +:+ "/7")) start).1 = 200.
Proof. repeat split; by vm_compute. Qed.

Example Atoi_ex :
  Strconv.Atoi "-123" = Some (-123)
  /\ Strconv.Atoi "+7" = Some 7
  /\ Strconv.Atoi "9223372036854775807" = Some 9223372036854775807
  /\ Strconv.Atoi "9223372036854775808" = None
  /\ Strconv.Atoi "-9223372036854775808" = Some (-9223372036854775808)
  /\ Strconv.Atoi EmptyString = None /\ Strconv.Atoi "+" = None
  /\ Strconv.Atoi "1_0" = None /\ Strconv.Atoi "12a" = None /\ Strconv.Atoi " 1" = None.
Proof. repeat split; reflexivity. Qed.

Example Decode_ex :
  Json.Decode EmptyString = inl Json.EOF
  /\ Json.Decode "{" = inl Json.ErrUnexpectedEOF
  /\ Json.Decode "[[[[" = inl Json.ErrUnexpectedEOF
  /\ Json.Decode "{invalid json" = inl Json.SyntaxError
  /\ Json.Decode "[]" = inl Json.UnmarshalTypeError
  /\ Json.Decode "12" = inl Json.UnmarshalTypeError
  /\ Json.Decode " null" = inr zeroSchema
  /\ Json.Decode "{} trailing" = inr zeroSchema.
Proof. repeat split; by vm_compute. Qed.

(** ** The claims *)

(** C1 (does not hold of the code).  The specification answers
    not-found to a POST whose path is not the one segment [entity].
    The POST case of the handler has no route test, unlike the GET, PUT
    and DELETE cases: with the schema of the tests loaded,
    [POST /products] is answered 200 with a synthesized object, [id] 1,
    although the path is not the entity [users]; GET on the same path
    is answered 404. *)
Theorem C1_post_routes_every_path lowerCase :
  segmentsOf "/products" <> [entityOf lowerCase userSchema]
  /\ (catchAllHandler lowerCase keyOrder (Some userSchema) (request "POST" "/products") start).1
     = {| Status := 200;
          Body := JSON (PObject {[ "id" := VInt 1; "name" := VString "example";
                                   "email" := VString "example" ]}) |}
  /\ (catchAllHandler lowerCase keyOrder (Some userSchema) (request "GET" "/products") start).1
     = {| Status := 404; Body := Text "404 page not found" |}.
Proof.
  split; [by vm_compute|]. split; by vm_compute.
Qed.

(** C2 (does not hold of the code).  The specification, like the
    comments of the loop, takes the first string-typed property of the
    scan where no string-typed [id] exists.  The loop never sets
    [foundKey] there and keeps the last one: on a schema with the
    string properties [name] and [email] and no [id], scanned in the
    order [email], [name], the specification names [email]; GET and PUT
    on [/contacts/abc] overwrite [name] and leave [email] at its
    placeholder. *)
Theorem C2_scan_keeps_last_string_key lowerCase :
  let kvs := keyOrder 1 (Properties contactSchema) in
  kvs = [("email", {| PropertyType := "string" |});
         ("name", {| PropertyType := "string" |})]
  /\ isIntegerExpected contactSchema = false
  /\ specStringKey kvs = "email"
  /\ findStringKey kvs "id" false = "name"
  /\ (catchAllHandler lowerCase keyOrder (Some contactSchema) (request "GET" "/contacts/abc") start).1
     = {| Status := 200;
          Body := JSON (PObject {[ "email" := VString "example";
                                   "name" := VString "abc" ]}) |}
  /\ (catchAllHandler lowerCase keyOrder (Some contactSchema) (request "PUT" "/contacts/abc") start).1
     = {| Status := 200;
          Body := JSON (PObject {[ "email" := VString "example";
                                   "name" := VString "abc" ]}) |}.
Proof.
  repeat split; by vm_compute.
Qed.

(** C3. On a schema that declares [id] as [integer], for a request on
    [/{entity}/{idSeg}]: if [idSeg] does not parse as an integer, GET,
    PUT and DELETE answer 400 "Invalid ID format: expected integer"; if
    it parses as [id], GET and PUT answer 200 with the placeholders of
    the schema, [id] set to the integer [id], and DELETE answers 200
    with its acknowledgment and has synthesized nothing. *)
Theorem C3_integer_id lowerCase order schema r idSeg prop t :
  RangeOrder order ->
  Properties schema !! "id" = Some prop -> PropertyType prop = "integer" ->
  segmentsOf (Path r) = [entityOf lowerCase schema; idSeg] ->
  (Strconv.Atoi idSeg = None ->
     Method r = MethodGet \/ Method r = MethodPut \/ Method r = MethodDelete ->
     (catchAllHandler lowerCase order (Some schema) r t).1
     = {| Status := StatusBadRequest;
          Body := Text "Invalid ID format: expected integer" |})
  /\ (forall id, Strconv.Atoi idSeg = Some id ->
        (Method r = MethodGet \/ Method r = MethodPut ->
           (catchAllHandler lowerCase order (Some schema) r t).1
           = {| Status := StatusOK;
                Body := JSON (PObject (<["id" := VInt id]> (placeholders schema))) |})
        /\ (Method r = MethodDelete ->
              catchAllHandler lowerCase order (Some schema) r t
              = ({| Status := StatusOK;
                    Body := JSON (PMessage {[ "message" := "Deleted successfully" ]}) |},
                 t))).
Proof.
  intros Hord Hid Hty Hseg.
  pose proof (isIntegerExpected_true schema prop Hid Hty) as Hint.
  destruct r as [method path body]. simpl in Hseg. cbn [Method].
  split; [|intros id Hatoi; split].
  - intros Hatoi [->|[->| ->]]; route Hseg; simpl.
    + unfold bind. rewrite single_integer by done. by rewrite Hatoi.
    + unfold bind. rewrite single_integer by done. by rewrite Hatoi.
    + by rewrite Hint, Hatoi.
  - intros [->| ->]; route Hseg; simpl;
      unfold bind; rewrite single_integer by done; by rewrite Hatoi.
  - intros ->. route Hseg. simpl. by rewrite Hint, Hatoi.
Qed.

Lemma C3_integer_id_witness :
  (catchAllHandler Unicode.latin1 keyOrder (Some elanSchema)
     (request "GET" ("/" +:+ elans +:+ "/abc")) start).1
  = {| Status := 400; Body := Text "Invalid ID format: expected integer" |}
  /\ (catchAllHandler Unicode.latin1 keyOrder (Some elanSchema)
        (request "PUT" ("/" +:+ elans +:+ "/456")) start).1
     = {| Status := 200;
          Body := JSON (PObject (<["id" := VInt 456]> (placeholders elanSchema))) |}.
Proof.
  split.
  - apply (proj1 (C3_integer_id Unicode.latin1 keyOrder elanSchema
                    (request "GET" ("/" +:+ elans +:+ "/abc")) "abc"
                    {| PropertyType := "integer" |} start
                    (fun k m => reflexivity _) eq_refl eq_refl eq_refl)).
    + reflexivity.
    + left. reflexivity.
  - apply (proj2 (C3_integer_id Unicode.latin1 keyOrder elanSchema
                    (request "PUT" ("/" +:+ elans +:+ "/456")) "456"
                    {| PropertyType := "integer" |} start
                    (fun k m => reflexivity _) eq_refl eq_refl eq_refl) 456).
    + reflexivity.
    + right. reflexivity.
Defined.

(** C4. [dummyData] returns an object that holds, under every declared
    property and under nothing else, the placeholder of that property's
    type: "example" for [string], 1 for [integer], 0.0 for [number],
    false for [boolean], nil for every other type.  The object is the
    same whatever the [required] list of the schema. *)
Theorem C4_placeholders_by_type order schema t :
  RangeOrder order ->
  (exists data,
      (dummyData order (Some schema) t).1 = inr data
      /\ forall key,
           data !! key
           = (fun prop => dummyValue (PropertyType prop)) <$> Properties schema !! key)
  /\ (dummyValue "string" = VString "example"
      /\ dummyValue "integer" = VInt 1
      /\ dummyValue "number" = VFloat (S754_zero false)
      /\ dummyValue "boolean" = VBool false
      /\ forall type,
           type <> "string" -> type <> "integer" -> type <> "number" ->
           type <> "boolean" -> dummyValue type = VNil)
  /\ forall required,
       dummyData order
         (Some {| Title := Title schema; SchemaType := SchemaType schema;
                  Properties := Properties schema; Required := required |}) t
       = dummyData order (Some schema) t.
Proof.
  intros Hord. split; [|split].
  - exists (placeholders schema). rewrite dummyData_run by done.
    split; [done|]. intros key. unfold placeholders. by rewrite lookup_fmap.
  - repeat split. intros type H1 H2 H3 H4. unfold dummyValue.
    by rewrite !decide_False.
  - intros required. reflexivity.
Qed.

Lemma C4_placeholders_by_type_witness :
  exists data,
    (dummyData keyOrder (Some userSchema) start).1 = inr data
    /\ forall key,
         data !! key
         = (fun prop => dummyValue (PropertyType prop)) <$> Properties userSchema !! key.
Proof.
  apply (C4_placeholders_by_type keyOrder userSchema start).
  intros k m. reflexivity.
Defined.

(** C5. On a loaded schema, whatever it declares, [GET /{entity}]
    answers 200 with a list of exactly three objects: one synthesized
    object with [id] set to 1, to 2 and to 3.  That object holds the
    declared properties and no other field, each property with the
    placeholder of its type: "example" for [string], 1 for [integer],
    0.0 for [number], false for [boolean], nil for every other type.
    The run has called [dummyData] three times. *)
Theorem C5_list_of_three lowerCase order schema r t :
  RangeOrder order ->
  Method r = MethodGet ->
  segmentsOf (Path r) = [entityOf lowerCase schema] ->
  exists obj,
    catchAllHandler lowerCase order (Some schema) r t
    = ({| Status := StatusOK;
          Body := JSON (PList [ <["id" := VInt 1]> obj;
                                <["id" := VInt 2]> obj;
                                <["id" := VInt 3]> obj ]) |},
       synthesized 3 t)
    /\ obj = placeholders schema
    /\ (forall key, Properties schema !! key = None -> obj !! key = None)
    /\ forall key prop,
         Properties schema !! key = Some prop ->
         (PropertyType prop = "string" -> obj !! key = Some (VString "example"))
         /\ (PropertyType prop = "integer" -> obj !! key = Some (VInt 1))
         /\ (PropertyType prop = "number" -> obj !! key = Some (VFloat (S754_zero false)))
         /\ (PropertyType prop = "boolean" -> obj !! key = Some (VBool false))
         /\ (PropertyType prop <> "string" -> PropertyType prop <> "integer" ->
             PropertyType prop <> "number" -> PropertyType prop <> "boolean" ->
             obj !! key = Some VNil).
Proof.
  intros Hord Hm Hseg. exists (placeholders schema).
  split; [|split; [done|split]].
  - destruct r as [method path body]. simpl in Hm, Hseg. subst method.
    route Hseg. unfold bind. by rewrite listLoop_run.
  - intros key Hkey. unfold placeholders. by rewrite lookup_fmap, Hkey.
  - intros key [type] Hkey. unfold placeholders. rewrite lookup_fmap, Hkey. simpl.
    unfold dummyValue. repeat split.
    + by intros ->.
    + by intros ->.
    + by intros ->.
    + by intros ->.
    + intros H1 H2 H3 H4. by rewrite !decide_False.
Qed.

Lemma C5_list_of_three_witness :
  (catchAllHandler Unicode.latin1 keyOrder (Some elanSchema)
     (request "GET" ("/" +:+ elans)) start).1
  = {| Status := 200;
       Body := JSON (PList [ {[ "id" := VInt 1; "name" := VString "example" ]};
                             {[ "id" := VInt 2; "name" := VString "example" ]};
                             {[ "id" := VInt 3; "name" := VString "example" ]} ]) |}.
Proof.
  destruct (C5_list_of_three Unicode.latin1 keyOrder elanSchema
              (request "GET" ("/" +:+ elans)) start
              (fun k m => reflexivity _) eq_refl eq_refl)
    as (obj & Hresp & Hobj & _).
  rewrite Hresp, Hobj. by vm_compute.
Defined.

(** C6. On a loaded schema, a DELETE on [/{entity}/{idSeg}] whose
    segment passes the ID check (it parses as an integer where the
    schema declares an integer [id]; any segment otherwise) answers 200
    with exactly the object [message: "Deleted successfully"], and the
    run has called [dummyData] not once. *)
Theorem C6_delete_acknowledges lowerCase order schema r idSeg t :
  Method r = MethodDelete ->
  segmentsOf (Path r) = [entityOf lowerCase schema; idSeg] ->
  (isIntegerExpected schema = true -> is_Some (Strconv.Atoi idSeg)) ->
  catchAllHandler lowerCase order (Some schema) r t
  = ({| Status := StatusOK;
        Body := JSON (PMessage {[ "message" := "Deleted successfully" ]}) |},
     t)
  /\ synths (catchAllHandler lowerCase order (Some schema) r t).2 = synths t.
Proof.
  intros Hm Hseg Hvalid.
  assert (catchAllHandler lowerCase order (Some schema) r t
          = ({| Status := StatusOK;
                Body := JSON (PMessage {[ "message" := "Deleted successfully" ]}) |},
             t)) as E.
  { destruct r as [method path body]. simpl in Hm, Hseg. subst method.
    route Hseg. simpl. destruct (isIntegerExpected schema); [|done].
    by destruct (Hvalid eq_refl) as [id ->]. }
  by rewrite E.
Qed.

Lemma C6_delete_acknowledges_witness :
  catchAllHandler Unicode.latin1 keyOrder (Some elanSchema)
    (request "DELETE" ("/" +:+ elans +:+ "/789")) start
  = ({| Status := 200;
        Body := JSON (PMessage {[ "message" := "Deleted successfully" ]}) |},
     start)
  /\ synths (catchAllHandler Unicode.latin1 keyOrder (Some elanSchema)
               (request "DELETE" ("/" +:+ elans +:+ "/789")) start).2 = synths start.
Proof.
  apply (C6_delete_acknowledges Unicode.latin1 keyOrder elanSchema
           (request "DELETE" ("/" +:+ elans +:+ "/789")) "789").
  - reflexivity.
  - reflexivity.
  - intros _. exists 789. reflexivity.
Defined.

(** C7. With no schema loaded, every request to the catch-all handler,
    whatever its method and path, is answered 400 with one fixed
    message that contains "No schema uploaded"; the handler has then
    neither split the path nor dispatched on the method, and has
    synthesized nothing. *)
Theorem C7_no_schema_is_bad_request lowerCase order r t :
  exists msg,
    catchAllHandler lowerCase order None r t
    = ({| Status := StatusBadRequest; Body := Text msg |}, t)
    /\ msg = "No schema uploaded. Please POST your JSON schema to /upload"
    /\ contains "No schema uploaded" msg.
Proof.
  eexists. split; [reflexivity|]. split; [reflexivity|].
  by exists EmptyString, ". Please POST your JSON schema to /upload".
Qed.

(** C8. On /upload every method but POST is answered 405 and leaves the
    stored schema alone; a POST whose body does not decode into a
    Schema is answered 400 with the decoder's diagnostic and leaves the
    stored schema alone; a POST whose body decodes replaces the stored
    schema by the decoded one and is answered 200 with the message and
    the title of the new schema. *)
Theorem C8_upload currentSchema r :
  (Method r <> MethodPost ->
     uploadHandler currentSchema r
     = ({| Status := StatusMethodNotAllowed; Body := Text "Only POST allowed" |},
        currentSchema))
  /\ (Method r = MethodPost ->
      forall err, Json.Decode (RequestBody r) = inl err ->
        uploadHandler currentSchema r
        = ({| Status := StatusBadRequest; Body := TextErr "Invalid JSON schema: " err |},
           currentSchema))
  /\ (Method r = MethodPost ->
      forall schema, Json.Decode (RequestBody r) = inr schema ->
        uploadHandler currentSchema r
        = ({| Status := StatusOK;
              Body := JSON (PMessage {[ "message" := "Schema uploaded successfully";
                                        "title" := Title schema ]}) |},
           Some schema)).
Proof.
  repeat split.
  - intros Hm. unfold uploadHandler. by rewrite decide_True.
  - intros Hm err Hdec. unfold uploadHandler.
    rewrite decide_False by (by intros []). by rewrite Hdec.
  - intros Hm schema Hdec. by apply upload_ok.
Qed.

Lemma C8_upload_witness :
  uploadHandler (Some userSchema) (request "GET" "/upload")
  = ({| Status := 405; Body := Text "Only POST allowed" |}, Some userSchema)
  /\ uploadHandler (Some userSchema) (upload "{invalid json")
     = ({| Status := 400; Body := TextErr "Invalid JSON schema: " Json.SyntaxError |},
        Some userSchema)
  /\ uploadHandler (Some userSchema) (upload "{}")
     = ({| Status := 200;
           Body := JSON (PMessage {[ "message" := "Schema uploaded successfully";
                                     "title" := EmptyString ]}) |},
        Some zeroSchema).
Proof.
  split; [|split].
  - apply (proj1 (C8_upload (Some userSchema) (request "GET" "/upload"))). by vm_compute.
  - apply (proj1 (proj2 (C8_upload (Some userSchema) (upload "{invalid json"))));
      reflexivity.
  - apply (proj2 (proj2 (C8_upload (Some userSchema) (upload "{}")))
             eq_refl zeroSchema).
    reflexivity.
Defined.

(** C9. The handler strips the slashes at the two ends of the path,
    all of them and nothing else, before it splits it: a path is its
    trimmed form between two runs of slashes, and the trimmed form
    neither starts nor ends with a slash; the segments are the pieces
    of the trimmed form between its slashes.  So a request routes as
    the same request with any number of slashes added in front of or
    behind its path, whatever the schema: [/{entity}/] as [/{entity}],
    [/{entity}/{idSeg}/] as [/{entity}/{idSeg}].  The root path splits
    into one empty segment, and no entity name is empty, so the root
    matches neither route shape. *)
Theorem C9_slashes_at_the_ends lowerCase order currentSchema r n m t :
  (forall path,
      (exists n' m', path = slashes n' +:+ Strings.Trim path "/" +:+ slashes m')
      /\ (forall rest, Strings.Trim path "/" <> String "/" rest)
      /\ (forall rest, Strings.Trim path "/" <> rest +:+ "/")
      /\ Join (segmentsOf path) "/" = Strings.Trim path "/"
      /\ Forall (free "/") (segmentsOf path))
  /\ (forall path, segmentsOf (slashes n +:+ path +:+ slashes m) = segmentsOf path)
  /\ catchAllHandler lowerCase order currentSchema
       {| Method := Method r; Path := slashes n +:+ Path r +:+ slashes m;
          RequestBody := RequestBody r |} t
     = catchAllHandler lowerCase order currentSchema r t
  /\ segmentsOf "/" = [EmptyString]
  /\ forall schema,
       entityOf lowerCase schema <> EmptyString
       /\ matches (segmentsOf "/") 1 (entityOf lowerCase schema) = false
       /\ matches (segmentsOf "/") 2 (entityOf lowerCase schema) = false.
Proof.
  assert (forall path, segmentsOf (slashes n +:+ path +:+ slashes m) = segmentsOf path)
    as Hsame.
  { intros path. unfold segmentsOf. by rewrite Trim_slashes_l, Trim_slashes_r. }
  split; [|split; [exact Hsame|split; [|split; [reflexivity|]]]].
  - intros path. split; [apply Trim_slashes|].
    split; [intros rest; apply Trim_no_leading|].
    split; [intros rest; apply Trim_no_trailing|].
    split; [apply Join_Split | apply Split_segments_free].
  - apply catchAllHandler_segments; [done|]. cbn [Path]. apply Hsame.
  - intros schema. split; [apply entity_nonempty|]. split; [|reflexivity].
    unfold matches. apply andb_false_intro2. apply bool_decide_eq_false_2.
    intros [= E]. by apply (entity_nonempty lowerCase (Title schema)).
Qed.

(** C10. Every body that decodes into a Schema is accepted with 200 and
    stored.  [null] and [{}] decode, both into the zero schema: their
    upload is answered 200 with an empty title, the entity name of the
    stored schema is [s], and [GET /s] then lists three objects that
    hold an [id] only. *)
Theorem C10_null_and_empty_object lowerCase currentSchema body :
  body = "null" \/ body = "{}" ->
  (forall body' schema,
      Json.Decode body' = inr schema ->
      exists resp,
        uploadHandler currentSchema (upload body') = (resp, Some schema)
        /\ Status resp = StatusOK)
  /\ uploadHandler currentSchema (upload body)
     = ({| Status := StatusOK;
           Body := JSON (PMessage {[ "message" := "Schema uploaded successfully";
                                     "title" := EmptyString ]}) |},
        Some zeroSchema)
  /\ entityOf lowerCase zeroSchema = "s"
  /\ (forall order r t,
        RangeOrder order -> Method r = MethodGet -> segmentsOf (Path r) = ["s"] ->
        (catchAllHandler lowerCase order (uploadHandler currentSchema (upload body)).2 r t).1
        = {| Status := StatusOK;
             Body := JSON (PList [ {[ "id" := VInt 1 ]}; {[ "id" := VInt 2 ]};
                                   {[ "id" := VInt 3 ]} ]) |}).
Proof.
  intros Hbody.
  assert (uploadHandler currentSchema (upload body)
          = ({| Status := StatusOK;
                Body := JSON (PMessage {[ "message" := "Schema uploaded successfully";
                                          "title" := EmptyString ]}) |},
             Some zeroSchema)) as Hup.
  { apply (upload_ok currentSchema (upload body) zeroSchema); [done|].
    by destruct Hbody as [-> | ->]. }
  split; [|split; [done|split; [reflexivity|]]].
  - intros body' schema Hdec. eexists. split; [by apply upload_ok|done].
  - intros order r t Hord Hm Hseg. rewrite Hup. cbn [snd].
    destruct r as [method path rbody]. simpl in Hm, Hseg. subst method.
    change ["s"] with [entityOf lowerCase zeroSchema] in Hseg.
    route Hseg. unfold bind. rewrite listLoop_run by done. unfold ret. simpl.
    do 2 f_equal.
Qed.

Lemma C10_null_and_empty_object_witness :
  uploadHandler None (upload "null")
  = ({| Status := 200;
        Body := JSON (PMessage {[ "message" := "Schema uploaded successfully";
                                  "title" := EmptyString ]}) |},
     Some zeroSchema).
Proof.
  apply (proj1 (proj2 (C10_null_and_empty_object Unicode.latin1 None "null" (or_introl eq_refl)))).
Defined.

(** ** Further properties of [catchAllHandler]: the paths of the routes *)

Lemma segments_one_inv path a :
  segmentsOf path = [a] ->
  free "/" a /\ exists n m, path = slashes n +:+ a +:+ slashes m.
Proof.
  intros Hseg. unfold segmentsOf in Hseg.
  pose proof (Split_segments_free (Strings.Trim path "/") "/") as Hfree.
  pose proof (Join_Split (Strings.Trim path "/") "/") as Hjoin.
  rewrite Hseg in Hfree, Hjoin. simpl in Hjoin.
  apply Forall_cons in Hfree as [Ha _]. split; [done|].
  rewrite Hjoin. apply Trim_slashes.
Qed.

Lemma segments_two_inv path a b :
  segmentsOf path = [a; b] ->
  a <> EmptyString /\ b <> EmptyString /\ free "/" a /\ free "/" b
  /\ exists n m, path = slashes n +:+ a +:+ String "/" b +:+ slashes m.
Proof.
  intros Hseg. unfold segmentsOf in Hseg.
  pose proof (Split_segments_free (Strings.Trim path "/") "/") as Hfree.
  pose proof (Join_Split (Strings.Trim path "/") "/") as Hjoin.
  rewrite Hseg in Hfree, Hjoin. simpl in Hjoin.
  apply Forall_cons in Hfree as [Ha Hfree].
  apply Forall_cons in Hfree as [Hb _].
  split; [|split; [|split; [done|split; [done|]]]].
  - intros ->. by apply (Trim_no_leading path "/" b).
  - intros ->. by apply (Trim_no_trailing path "/" a).
  - destruct (Trim_slashes path) as (n & m & Hp). exists n, m.
    rewrite Hp at 1. rewrite <- Hjoin. by rewrite !append_assoc.
Qed.

(** X1. The paths on which the handler sees the one segment [a] are
    the strings [a] without a slash between two runs of slashes; the
    paths on which it sees the two segments [a], [b] are the strings
    [a/b] between two runs of slashes, with [a] and [b] not empty and
    without a slash. *)
Theorem route_paths path a b :
  (segmentsOf path = [a]
   <-> free "/" a /\ exists n m, path = slashes n +:+ a +:+ slashes m)
  /\ (segmentsOf path = [a; b]
      <-> a <> EmptyString /\ b <> EmptyString /\ free "/" a /\ free "/" b
          /\ exists n m, path = slashes n +:+ a +:+ String "/" b +:+ slashes m).
Proof.
  split; split.
  - apply segments_one_inv.
  - intros [Ha (n & m & ->)]. unfold segmentsOf.
    rewrite Trim_slashes_l, Trim_slashes_r.
    destruct a as [|x a]; [done|].
    pose proof (segmentsOf_collection (String x a) Ha) as Hc.
    unfold segmentsOf in Hc. rewrite Trim_cons in Hc. by apply Hc.
  - apply segments_two_inv.
  - intros (Hane & Hbne & Ha & Hb & n & m & ->). unfold segmentsOf.
    rewrite Trim_slashes_l, <- append_assoc, Trim_slashes_r.
    pose proof (segmentsOf_item a b Ha Hane Hb Hbne) as Hc.
    unfold segmentsOf in Hc. rewrite append_cons, Trim_cons in Hc. exact Hc.
Qed.

Lemma route_paths_witness :
  "users" <> EmptyString /\ "12" <> EmptyString /\ free "/" "users" /\ free "/" "12"
  /\ exists n m, "/users/12//" = slashes n +:+ "users" +:+ String "/" "12" +:+ slashes m.
Proof.
  exact (proj1 (proj2 (route_paths "/users/12//" "users" "12")) eq_refl).
Defined.

(** ** Further properties of [catchAllHandler]: the answers off the routes *)

Lemma matches_one_iff segments entity :
  matches segments 1 entity = true <-> segments = [entity].
Proof.
  unfold matches. rewrite andb_true_iff, !bool_decide_eq_true. split.
  - intros [Hlen Hhd]. destruct segments as [|seg [|]]; simplify_eq/=. done.
  - by intros ->.
Qed.

Lemma matches_two_iff segments entity :
  matches segments 2 entity = true <-> exists idSeg, segments = [entity; idSeg].
Proof.
  unfold matches. rewrite andb_true_iff, !bool_decide_eq_true. split.
  - intros [Hlen Hhd]. destruct segments as [|seg [|idSeg [|]]]; simplify_eq/=. eauto.
  - by intros [idSeg ->].
Qed.

(** Unfolding the handler on a loaded schema. *)
Ltac enter path schema :=
  unfold catchAllHandler, encode; cbn [Method Path]; cbv zeta;
  change (Strings.Split (Strings.Trim path "/") "/") with (segmentsOf path);
  match goal with
  | |- context [Strings.ToLower ?lowerCase (Title schema) +:+ "s"] =>
      change (Strings.ToLower lowerCase (Title schema) +:+ "s")
        with (entityOf lowerCase schema)
  end;
  unfold MethodGet, MethodPost, MethodPut, MethodDelete;
  repeat (first [rewrite decide_True by done | rewrite decide_False by done]).

(** A GET, PUT or DELETE off its route is answered 404. *)
Lemma not_found_off_route lowerCase order schema r t :
  Method r = MethodGet \/ Method r = MethodPut \/ Method r = MethodDelete ->
  (forall idSeg, segmentsOf (Path r) <> [entityOf lowerCase schema; idSeg]) ->
  (Method r = MethodGet -> segmentsOf (Path r) <> [entityOf lowerCase schema]) ->
  catchAllHandler lowerCase order (Some schema) r t
  = ({| Status := StatusNotFound; Body := Text "404 page not found" |}, t).
Proof.
  intros Hm Htwo Hone. destruct r as [method path body]. simpl in *.
  assert (matches (segmentsOf path) 2 (entityOf lowerCase schema) = false) as H2.
  { apply not_true_is_false. intros [idSeg E]%matches_two_iff. by apply (Htwo idSeg). }
  destruct Hm as [->|[->| ->]]; enter path schema; rewrite H2.
  - assert (matches (segmentsOf path) 1 (entityOf lowerCase schema) = false) as ->; [|done].
    apply not_true_is_false. intros E%matches_one_iff. by apply Hone.
  - done.
  - done.
Qed.

(** X2. On a loaded schema a GET, PUT or DELETE is answered 404, and
    nothing is synthesized, when the first segment of its path is not
    the entity name, when the path has more than two segments, and, for
    PUT and DELETE, when the path has one segment only. *)
Theorem off_route_is_not_found lowerCase order schema r t :
  Method r = MethodGet \/ Method r = MethodPut \/ Method r = MethodDelete ->
  List.hd_error (segmentsOf (Path r)) <> Some (entityOf lowerCase schema)
  \/ (2 < length (segmentsOf (Path r)))%nat
  \/ (length (segmentsOf (Path r)) = 1%nat /\ Method r <> MethodGet) ->
  catchAllHandler lowerCase order (Some schema) r t
  = ({| Status := StatusNotFound; Body := Text "404 page not found" |}, t).
Proof.
  intros Hm Hoff. apply not_found_off_route; [done|..].
  - intros idSeg E. rewrite E in Hoff. simpl in Hoff.
    destruct Hoff as [?|[?|[? _]]]; [done|lia|lia].
  - intros Hg E. rewrite E in Hoff. simpl in Hoff.
    destruct Hoff as [?|[?|[_ ?]]]; [done|lia|done].
Qed.

Lemma off_route_is_not_found_witness :
  catchAllHandler Unicode.latin1 keyOrder (Some elanSchema)
    (request "GET" ("/" +:+ elan +:+ "s")) start
  = ({| Status := 404; Body := Text "404 page not found" |}, start)
  /\ catchAllHandler Unicode.latin1 keyOrder (Some elanSchema)
       (request "PUT" ("/" +:+ elans)) start
     = ({| Status := 404; Body := Text "404 page not found" |}, start).
Proof.
  split.
  - apply (off_route_is_not_found Unicode.latin1 keyOrder elanSchema
             (request "GET" ("/" +:+ elan +:+ "s")) start).
    + left. reflexivity.
    + left. vm_compute. discriminate.
  - apply (off_route_is_not_found Unicode.latin1 keyOrder elanSchema
             (request "PUT" ("/" +:+ elans)) start).
    + right. left. reflexivity.
    + right. right. split; [reflexivity | discriminate].
Defined.

Lemma not_allowed_other_method lowerCase order schema r t :
  Method r <> MethodGet -> Method r <> MethodPost ->
  Method r <> MethodPut -> Method r <> MethodDelete ->
  catchAllHandler lowerCase order (Some schema) r t
  = ({| Status := StatusMethodNotAllowed; Body := Text "Method not supported" |}, t).
Proof.
  intros Hg Hpo Hpu Hd. destruct r as [method path body]. simpl in *.
  unfold MethodGet, MethodPost, MethodPut, MethodDelete in *.
  by enter path schema.
Qed.

(** X3. On a loaded schema every method but GET, POST, PUT and DELETE
    is answered 405 "Method not supported", on every path, and nothing
    is synthesized; without a schema the same request is answered 400
    instead. *)
Theorem other_method_is_not_allowed lowerCase order schema r t :
  Method r <> MethodGet -> Method r <> MethodPost ->
  Method r <> MethodPut -> Method r <> MethodDelete ->
  catchAllHandler lowerCase order (Some schema) r t
  = ({| Status := StatusMethodNotAllowed; Body := Text "Method not supported" |}, t)
  /\ Status (catchAllHandler lowerCase order None r t).1 = StatusBadRequest.
Proof.
  intros Hg Hpo Hpu Hd. split; [|reflexivity].
  destruct r as [method path body]. simpl in *.
  unfold MethodGet, MethodPost, MethodPut, MethodDelete in *.
  by enter path schema.
Qed.

Lemma other_method_is_not_allowed_witness :
  catchAllHandler Unicode.latin1 keyOrder (Some userSchema) (request "PATCH" "/users/1") start
  = ({| Status := 405; Body := Text "Method not supported" |}, start).
Proof.
  apply (other_method_is_not_allowed Unicode.latin1 keyOrder userSchema (request "PATCH" "/users/1") start);
    discriminate.
Defined.

(** X4. A schema whose title holds a slash has no reachable GET, PUT or
    DELETE route: the entity name holds the slash, no segment does, and
    every such request is answered 404. *)
Theorem slash_title_is_unreachable lowerCase order schema r t :
  ~ free "/" (Title schema) ->
  Method r = MethodGet \/ Method r = MethodPut \/ Method r = MethodDelete ->
  catchAllHandler lowerCase order (Some schema) r t
  = ({| Status := StatusNotFound; Body := Text "404 page not found" |}, t).
Proof.
  intros Hslash Hm.
  assert (~ free "/" (entityOf lowerCase schema)) as Hentity.
  { unfold entityOf. rewrite free_app. intros [Hfree _]. by apply Hslash, (ToLower_slash lowerCase). }
  assert (forall rest, segmentsOf (Path r) <> entityOf lowerCase schema :: rest) as Hhd.
  { intros rest E. pose proof (Split_segments_free (Strings.Trim (Path r) "/") "/") as Hfree.
    fold (segmentsOf (Path r)) in Hfree. rewrite E in Hfree.
    by apply Forall_cons in Hfree as [Hfree _]. }
  apply not_found_off_route; [done|..]; intros; apply Hhd.
Qed.

Lemma slash_title_is_unreachable_witness :
  catchAllHandler Unicode.latin1 keyOrder
    (Some {| Title := "a/b"; SchemaType := "object"; Properties := ∅; Required := [] |})
    (request "GET" "/a/bs") start
  = ({| Status := 404; Body := Text "404 page not found" |}, start).
Proof.
  apply slash_title_is_unreachable.
  - vm_compute. intros (_ & H & _). by apply H.
  - left. reflexivity.
Defined.

(** ** Further properties of [catchAllHandler]: string IDs and the order of [range] *)

Lemma lastString_Some kvs key :
  lastString kvs = Some key -> exists prop, (key, prop) ∈ kvs /\ stringTyped prop.
Proof.
  induction kvs as [|[k p] kvs IH]; simpl; [done|].
  destruct (lastString kvs) as [k'|].
  - intros [= ->]. destruct (IH eq_refl) as (prop & Hin & Hty).
    exists prop. split; [by apply list_elem_of_further | done].
  - case_decide; [|done]. intros [= ->]. exists p. split; [apply list_elem_of_here | done].
Qed.

Lemma lastString_None kvs key prop :
  lastString kvs = None -> (key, prop) ∈ kvs -> ~ stringTyped prop.
Proof.
  induction kvs as [|[k p] kvs IH]; simpl; [by intros _ ?%elem_of_nil|].
  destruct (lastString kvs) as [k'|]; [done|]. case_decide; [done|].
  intros _ [[= -> ->]|Hin]%elem_of_cons; [done | by apply IH].
Qed.

Lemma lastString_snoc kvs key prop :
  stringTyped prop -> lastString (kvs ++ [(key, prop)]) = Some key.
Proof.
  unfold stringTyped. intros Hty. induction kvs as [|[k p] kvs IH]; simpl.
  - by rewrite decide_True.
  - by rewrite IH.
Qed.

Lemma orderLast_sound props key prop :
  props !! key = Some prop -> RangeOrder (orderLast props key prop).
Proof.
  intros Hkey k m. unfold orderLast. case_decide as Hm; [|done]. subst m.
  rewrite <- (map_to_list_delete props key prop Hkey).
  symmetry. apply Permutation_cons_append.
Qed.

(** The loop finds the same field in every order when the schema has a
    string-typed [id] or at most one string-typed property. *)
Lemma findStringKey_order (props : gmap string Property) kvs1 kvs2 :
  kvs1 ≡ₚ map_to_list props -> kvs2 ≡ₚ map_to_list props ->
  props !! "id" = Some {| PropertyType := "string" |}
  \/ (forall k1 k2 p1 p2, props !! k1 = Some p1 -> props !! k2 = Some p2 ->
        stringTyped p1 -> stringTyped p2 -> k1 = k2) ->
  findStringKey kvs1 "id" false = findStringKey kvs2 "id" false.
Proof.
  intros H1 H2 [Hid|Hone].
  - rewrite !findStringKey_id; [done|..].
    + rewrite H2. by apply elem_of_map_to_list.
    + rewrite H1. by apply elem_of_map_to_list.
  - destruct (decide (props !! "id" = Some {| PropertyType := "string" |})) as [Hid|Hid].
    { rewrite !findStringKey_id; [done|..].
      - rewrite H2. by apply elem_of_map_to_list.
      - rewrite H1. by apply elem_of_map_to_list. }
    rewrite !findStringKey_last by (rewrite ?H1, ?H2; by rewrite elem_of_map_to_list).
    destruct (lastString kvs1) as [k1|] eqn:E1, (lastString kvs2) as [k2|] eqn:E2; simpl.
    + apply lastString_Some in E1 as (p1 & Hin1 & Hty1).
      apply lastString_Some in E2 as (p2 & Hin2 & Hty2).
      rewrite H1 in Hin1. rewrite H2 in Hin2.
      apply elem_of_map_to_list in Hin1, Hin2. by eapply Hone.
    + apply lastString_Some in E1 as (p1 & Hin1 & Hty1).
      rewrite H1, <- H2 in Hin1. by destruct (lastString_None _ _ _ E2 Hin1).
    + apply lastString_Some in E2 as (p2 & Hin2 & Hty2).
      rewrite H2, <- H1 in Hin2. by destruct (lastString_None _ _ _ E1 Hin2).
    + done.
Qed.

Lemma item_request lowerCase order schema r idSeg t :
  Method r = MethodGet \/ Method r = MethodPut ->
  segmentsOf (Path r) = [entityOf lowerCase schema; idSeg] ->
  catchAllHandler lowerCase order (Some schema) r t = encode (single order schema idSeg) t.
Proof.
  intros Hm Hseg. destruct r as [method path body]. simpl in Hm, Hseg.
  destruct Hm as [-> | ->]; by route Hseg.
Qed.

Lemma collection_request lowerCase order schema r t :
  RangeOrder order -> Method r = MethodGet ->
  segmentsOf (Path r) = [entityOf lowerCase schema] ->
  catchAllHandler lowerCase order (Some schema) r t
  = ({| Status := StatusOK;
        Body := JSON (PList (numbered (placeholders schema) 3 1)) |},
     synthesized 3 t).
Proof.
  intros Hord Hm Hseg. destruct r as [method path body]. simpl in Hm, Hseg. subst method.
  route Hseg. unfold bind. by rewrite listLoop_run.
Qed.

(** X5. On a schema without an integer [id], a GET or PUT on an item
    writes the raw path segment into one field and leaves every other
    field at its placeholder.  The field is [id] when the schema
    declares [id] as [string]; else it is the last string-typed
    property the scan visits; else, with no string-typed property, it
    is [id], declared or not. *)
Theorem string_id_lands_in_one_field lowerCase order schema r idSeg t :
  RangeOrder order ->
  isIntegerExpected schema = false ->
  Method r = MethodGet \/ Method r = MethodPut ->
  segmentsOf (Path r) = [entityOf lowerCase schema; idSeg] ->
  exists key obj,
    (catchAllHandler lowerCase order (Some schema) r t).1
    = {| Status := StatusOK; Body := JSON (PObject obj) |}
    /\ obj !! key = Some (VString idSeg)
    /\ (forall k, k <> key -> obj !! k = placeholders schema !! k)
    /\ (Properties schema !! "id" = Some {| PropertyType := "string" |} -> key = "id")
    /\ (Properties schema !! "id" <> Some {| PropertyType := "string" |} ->
        key = default "id" (lastString (order (S (ranges t)) (Properties schema))))
    /\ ((forall k prop, Properties schema !! k = Some prop -> ~ stringTyped prop) ->
        key = "id").
Proof.
  intros Hord Hint Hm Hseg.
  pose proof (string_id_field lowerCase order schema r idSeg t Hord Hint Hm Hseg) as Hfield.
  cbv zeta in Hfield. eexists _, _. split; [exact Hfield|].
  split; [apply lookup_insert_eq|]. split; [by intros k Hk; rewrite lookup_insert_ne|].
  split; [by intros Hid; rewrite decide_True|].
  split; [by intros Hid; rewrite decide_False|].
  intros Hnone. case_decide as Hid; [done|].
  destruct (lastString _) as [key|] eqn:E; [|done].
  apply lastString_Some in E as (prop & Hin & Hty).
  rewrite (Hord (S (ranges t)) (Properties schema)) in Hin.
  apply elem_of_map_to_list in Hin. by destruct (Hnone key prop Hin).
Qed.

Lemma string_id_lands_in_one_field_witness :
  exists key obj,
    (catchAllHandler Unicode.latin1 keyOrder (Some contactSchema) (request "PUT" "/contacts/abc") start).1
    = {| Status := StatusOK; Body := JSON (PObject obj) |}
    /\ obj !! key = Some (VString "abc").
Proof.
  destruct (string_id_lands_in_one_field Unicode.latin1 keyOrder contactSchema
              (request "PUT" "/contacts/abc") "abc" start
              (fun k m => reflexivity _) eq_refl (or_intror eq_refl) eq_refl)
    as (key & obj & H1 & H2 & _).
  exists key, obj. split; [exact H1 | exact H2].
Defined.

(** X6. The answer to a request does not depend on the order in which
    [range] walks through the properties, except for a GET or PUT on an
    item of a schema that has neither an integer [id] nor a string-typed
    [id] and declares two or more string-typed properties. *)
Theorem answer_independent_of_order lowerCase order1 order2 currentSchema r t1 t2 :
  RangeOrder order1 -> RangeOrder order2 ->
  (forall schema idSeg,
      currentSchema = Some schema ->
      Method r = MethodGet \/ Method r = MethodPut ->
      segmentsOf (Path r) = [entityOf lowerCase schema; idSeg] ->
      isIntegerExpected schema = true
      \/ Properties schema !! "id" = Some {| PropertyType := "string" |}
      \/ (forall k1 k2 p1 p2,
            Properties schema !! k1 = Some p1 -> Properties schema !! k2 = Some p2 ->
            stringTyped p1 -> stringTyped p2 -> k1 = k2)) ->
  (catchAllHandler lowerCase order1 currentSchema r t1).1
  = (catchAllHandler lowerCase order2 currentSchema r t2).1.
Proof.
  intros Hord1 Hord2 Hcond. destruct currentSchema as [schema|]; [|done].
  assert (forall idSeg,
            Method r = MethodGet \/ Method r = MethodPut ->
            segmentsOf (Path r) = [entityOf lowerCase schema; idSeg] ->
            (catchAllHandler lowerCase order1 (Some schema) r t1).1
            = (catchAllHandler lowerCase order2 (Some schema) r t2).1) as Hitem.
  { intros idSeg Hm Hseg. rewrite !(item_request _ _ schema r idSeg) by done.
    unfold encode.
    destruct (isIntegerExpected schema) eqn:Hint.
    - rewrite !single_integer by done. by destruct (Strconv.Atoi idSeg).
    - rewrite !single_string by done. simpl.
      rewrite (findStringKey_order (Properties schema)
                 (order1 (S (ranges t1)) (Properties schema))
                 (order2 (S (ranges t2)) (Properties schema)));
        [done | apply Hord1 | apply Hord2 |].
      destruct (Hcond schema idSeg eq_refl Hm Hseg) as [?|[?|?]]; [congruence|by left|by right]. }
  destruct (matches (segmentsOf (Path r)) 2 (entityOf lowerCase schema)) eqn:H2.
  - apply matches_two_iff in H2 as [idSeg Hseg].
    destruct (decide (Method r = MethodGet)) as [Hg|Hg]; [by apply (Hitem idSeg); [left|]|].
    destruct (decide (Method r = MethodPut)) as [Hpu|Hpu]; [by apply (Hitem idSeg); [right|]|].
    destruct (decide (Method r = MethodPost)) as [Hpo|Hpo];
      [by rewrite !post_any_path|].
    destruct (decide (Method r = MethodDelete)) as [Hd|Hd];
      [|by rewrite !not_allowed_other_method].
    destruct r as [method path body]. simpl in *. subst method.
    route Hseg. simpl.
    destruct (isIntegerExpected schema); [|done]. by destruct (Strconv.Atoi idSeg).
  - assert (forall idSeg, segmentsOf (Path r) <> [entityOf lowerCase schema; idSeg]) as Hno2.
    { intros idSeg E. rewrite (proj2 (matches_two_iff _ _)) in H2; [done | eauto]. }
    destruct (decide (Method r = MethodPost)) as [Hpo|Hpo];
      [by rewrite !post_any_path|].
    destruct (decide (Method r = MethodPut)) as [Hpu|Hpu];
      [by rewrite !not_found_off_route by (try done; auto; by rewrite Hpu)|].
    destruct (decide (Method r = MethodDelete)) as [Hd|Hd];
      [by rewrite !not_found_off_route by (try done; auto; by rewrite Hd)|].
    destruct (decide (Method r = MethodGet)) as [Hg|Hg];
      [|by rewrite !not_allowed_other_method].
    destruct (decide (segmentsOf (Path r) = [entityOf lowerCase schema])) as [Hone|Hone].
    + by rewrite !collection_request.
    + by rewrite !not_found_off_route by auto.
Qed.

Lemma answer_independent_of_order_witness :
  (catchAllHandler Unicode.latin1 (orderLast (Properties userSchema) "name" {| PropertyType := "string" |})
     (Some userSchema) (request "GET" "/users/7") start).1
  = (catchAllHandler Unicode.latin1 keyOrder (Some userSchema) (request "GET" "/users/7") start).1.
Proof.
  apply answer_independent_of_order.
  - apply orderLast_sound. reflexivity.
  - intros k m. reflexivity.
  - intros schema idSeg [= <-] _ _. left. reflexivity.
Defined.

(** X7. For a schema without integer [id] and without string-typed
    [id] that declares two string-typed properties, the answer to a GET
    or PUT on an item does depend on the order of [range]: there are
    two orders under which the raw segment lands in different fields
    (for every segment but the placeholder "example" itself). *)
Theorem answer_depends_on_order lowerCase schema r idSeg k1 k2 p1 p2 t :
  Method r = MethodGet \/ Method r = MethodPut ->
  segmentsOf (Path r) = [entityOf lowerCase schema; idSeg] ->
  isIntegerExpected schema = false ->
  Properties schema !! "id" <> Some {| PropertyType := "string" |} ->
  Properties schema !! k1 = Some p1 -> Properties schema !! k2 = Some p2 ->
  stringTyped p1 -> stringTyped p2 -> k1 <> k2 ->
  idSeg <> "example" ->
  exists order1 order2,
    RangeOrder order1 /\ RangeOrder order2
    /\ (catchAllHandler lowerCase order1 (Some schema) r t).1
       = {| Status := StatusOK;
            Body := JSON (PObject (<[k1 := VString idSeg]> (placeholders schema))) |}
    /\ (catchAllHandler lowerCase order2 (Some schema) r t).1
       = {| Status := StatusOK;
            Body := JSON (PObject (<[k2 := VString idSeg]> (placeholders schema))) |}
    /\ (catchAllHandler lowerCase order1 (Some schema) r t).1
       <> (catchAllHandler lowerCase order2 (Some schema) r t).1.
Proof.
  intros Hm Hseg Hint Hid Hk1 Hk2 Hty1 Hty2 Hne Hex.
  assert (forall k p, Properties schema !! k = Some p -> stringTyped p ->
            (catchAllHandler lowerCase (orderLast (Properties schema) k p) (Some schema) r t).1
            = {| Status := StatusOK;
                 Body := JSON (PObject (<[k := VString idSeg]> (placeholders schema))) |})
    as Hanswer.
  { intros k p Hk Hty.
    rewrite (string_id_field _ _ schema r idSeg t (orderLast_sound _ k p Hk) Hint Hm Hseg).
    rewrite decide_False by done. unfold orderLast. rewrite decide_True by done.
    by rewrite lastString_snoc. }
  exists (orderLast (Properties schema) k1 p1), (orderLast (Properties schema) k2 p2).
  split; [by apply orderLast_sound|]. split; [by apply orderLast_sound|].
  rewrite !Hanswer by done. split; [done|]. split; [done|].
  intros [= E].
  assert ((<[k1 := VString idSeg]> (placeholders schema)) !! k1
          = (<[k2 := VString idSeg]> (placeholders schema)) !! k1) as Hlook by by rewrite E.
  rewrite lookup_insert_eq, lookup_insert_ne in Hlook by done.
  unfold placeholders in Hlook. rewrite lookup_fmap, Hk1 in Hlook. simpl in Hlook.
  unfold stringTyped in Hty1. rewrite Hty1 in Hlook. by injection Hlook as ->.
Qed.

Lemma answer_depends_on_order_witness :
  exists order1 order2,
    RangeOrder order1 /\ RangeOrder order2
    /\ (catchAllHandler Unicode.latin1 order1 (Some contactSchema) (request "GET" "/contacts/abc") start).1
       = {| Status := StatusOK;
            Body := JSON (PObject (<["name" := VString "abc"]> (placeholders contactSchema))) |}
    /\ (catchAllHandler Unicode.latin1 order2 (Some contactSchema) (request "GET" "/contacts/abc") start).1
       = {| Status := StatusOK;
            Body := JSON (PObject (<["email" := VString "abc"]> (placeholders contactSchema))) |}
    /\ (catchAllHandler Unicode.latin1 order1 (Some contactSchema) (request "GET" "/contacts/abc") start).1
       <> (catchAllHandler Unicode.latin1 order2 (Some contactSchema) (request "GET" "/contacts/abc") start).1.
Proof.
  apply (answer_depends_on_order Unicode.latin1 contactSchema (request "GET" "/contacts/abc") "abc"
           "name" "email" {| PropertyType := "string" |} {| PropertyType := "string" |} start).
  - left. reflexivity.
  - reflexivity.
  - reflexivity.
  - vm_compute. discriminate.
  - reflexivity.
  - reflexivity.
  - reflexivity.
  - reflexivity.
  - discriminate.
  - discriminate.
Defined.

(** ** Further properties of [catchAllHandler]: the answers it can give *)

Lemma Atoi_range s n :
  Strconv.Atoi s = Some n -> Strconv.minInt <= n <= Strconv.maxInt.
Proof.
  unfold Strconv.Atoi.
  destruct (match s with
            | String "-"%char t => (true, t)
            | String "+"%char t => (false, t)
            | _ => (false, s)
            end) as [neg s1].
  destruct s1 as [|c s1]; [done|].
  destruct (Strconv.digits 0 (String c s1)) as [v|]; [|done].
  destruct ((Strconv.minInt <=? (if neg then - v else v))
            && ((if neg then - v else v) <=? Strconv.maxInt)) eqn:E; [|done].
  intros [= <-]. apply andb_true_iff in E as [E1 E2]. lia.
Qed.

(** The five forms of an answer on a loaded schema. *)
Lemma answer_cases lowerCase order schema r t :
  RangeOrder order ->
  let resp := (catchAllHandler lowerCase order (Some schema) r t).1 in
  (exists code msg,
      resp = {| Status := code; Body := Text msg |}
      /\ (code = StatusBadRequest \/ code = StatusNotFound \/ code = StatusMethodNotAllowed))
  \/ resp = {| Status := StatusOK;
               Body := JSON (PList (numbered (placeholders schema) 3 1)) |}
  \/ (exists id,
        resp = {| Status := StatusOK;
                  Body := JSON (PObject (<["id" := VInt id]> (placeholders schema))) |}
        /\ Strconv.minInt <= id <= Strconv.maxInt)
  \/ (exists key idSeg,
        resp = {| Status := StatusOK;
                  Body := JSON (PObject (<[key := VString idSeg]> (placeholders schema))) |}
        /\ (key = "id"
            \/ exists prop, Properties schema !! key = Some prop /\ stringTyped prop)
        /\ idSeg <> EmptyString /\ free "/" idSeg)
  \/ resp = {| Status := StatusOK;
               Body := JSON (PMessage {[ "message" := "Deleted successfully" ]}) |}.
Proof.
  intros Hord resp. subst resp.
  assert (forall idSeg,
            Method r = MethodGet \/ Method r = MethodPut ->
            segmentsOf (Path r) = [entityOf lowerCase schema; idSeg] ->
            (exists code msg,
                (catchAllHandler lowerCase order (Some schema) r t).1
                = {| Status := code; Body := Text msg |}
                /\ (code = StatusBadRequest \/ code = StatusNotFound
                    \/ code = StatusMethodNotAllowed))
            \/ (exists id,
                  (catchAllHandler lowerCase order (Some schema) r t).1
                  = {| Status := StatusOK;
                       Body := JSON (PObject (<["id" := VInt id]> (placeholders schema))) |}
                  /\ Strconv.minInt <= id <= Strconv.maxInt)
            \/ (exists key idSeg,
                  (catchAllHandler lowerCase order (Some schema) r t).1
                  = {| Status := StatusOK;
                       Body := JSON (PObject (<[key := VString idSeg]> (placeholders schema))) |}
                  /\ (key = "id"
                      \/ exists prop, Properties schema !! key = Some prop /\ stringTyped prop)
                  /\ idSeg <> EmptyString /\ free "/" idSeg)) as Hitem.
  { intros idSeg Hm Hseg. rewrite (item_request _ _ schema r idSeg) by done.
    unfold encode. destruct (isIntegerExpected schema) eqn:Hint.
    - rewrite single_integer by done.
      destruct (Strconv.Atoi idSeg) as [id|] eqn:Hatoi.
      + right. left. exists id. split; [done|]. by apply (Atoi_range idSeg).
      + left. eexists _, _. split; [done|]. by left.
    - rewrite single_string by done. right. right. simpl.
      eexists _, idSeg. split; [done|].
      apply segments_two_inv in Hseg as (_ & Hne & _ & Hfree & _).
      split; [|done].
      pose proof (Hord (S (ranges t)) (Properties schema)) as Hperm.
      destruct (decide (("id", {| PropertyType := "string" |})
                        ∈ order (S (ranges t)) (Properties schema))) as [Hid|Hid].
      + left. by apply findStringKey_id.
      + rewrite findStringKey_last by done.
        destruct (lastString _) as [key|] eqn:E; [|by left].
        right. apply lastString_Some in E as (prop & Hin & Hty).
        exists prop. split; [|done]. rewrite Hperm in Hin.
        by apply elem_of_map_to_list in Hin. }
  destruct (decide (Method r = MethodPost)) as [Hpo|Hpo].
  { right. right. left. exists 1. rewrite post_any_path by done. split; [done|].
    by vm_compute. }
  destruct (matches (segmentsOf (Path r)) 2 (entityOf lowerCase schema)) eqn:H2.
  - apply matches_two_iff in H2 as [idSeg Hseg].
    destruct (decide (Method r = MethodGet)) as [Hg|Hg].
    { destruct (Hitem idSeg (or_introl Hg) Hseg) as [?|[?|?]]; auto. }
    destruct (decide (Method r = MethodPut)) as [Hpu|Hpu].
    { destruct (Hitem idSeg (or_intror Hpu) Hseg) as [?|[?|?]]; auto. }
    destruct (decide (Method r = MethodDelete)) as [Hd|Hd].
    + destruct r as [method path body]. simpl in *. subst method.
      route Hseg. simpl.
      destruct (isIntegerExpected schema); [|by do 4 right].
      destruct (Strconv.Atoi idSeg); [by do 4 right|].
      left. eexists _, _. split; [done|]. by left.
    + left. rewrite not_allowed_other_method by done.
      eexists _, _. split; [done|]. by do 2 right.
  - assert (forall idSeg, segmentsOf (Path r) <> [entityOf lowerCase schema; idSeg]) as Hno2.
    { intros idSeg E. rewrite (proj2 (matches_two_iff _ _)) in H2; [done | eauto]. }
    destruct (decide (Method r = MethodPut)) as [Hpu|Hpu].
    { left. rewrite not_found_off_route by (try done; auto; by rewrite Hpu).
      eexists _, _. split; [done|]. right. by left. }
    destruct (decide (Method r = MethodDelete)) as [Hd|Hd].
    { left. rewrite not_found_off_route by (try done; auto; by rewrite Hd).
      eexists _, _. split; [done|]. right. by left. }
    destruct (decide (Method r = MethodGet)) as [Hg|Hg].
    + destruct (decide (segmentsOf (Path r) = [entityOf lowerCase schema])) as [Hone|Hone].
      * right. left. by rewrite collection_request.
      * left. rewrite not_found_off_route by auto.
        eexists _, _. split; [done|]. right. by left.
    + left. rewrite not_allowed_other_method by done.
      eexists _, _. split; [done|]. by do 2 right.
Qed.

(** X8. The answers of the handler on a loaded schema are of five
    forms: a plain-text error with status 400, 404 or 405; the list of
    three numbered objects; the placeholders with [id] set to an
    integer in the range of [int]; the placeholders with one field set
    to a raw path segment, which is not empty and holds no slash, the
    field being [id] or a declared string-typed property; the
    acknowledgment of DELETE.  The last four come with status 200, so
    the body is JSON exactly when the status is 200. *)
Theorem answer_forms lowerCase order schema r t :
  RangeOrder order ->
  let resp := (catchAllHandler lowerCase order (Some schema) r t).1 in
  ((exists code msg,
      resp = {| Status := code; Body := Text msg |}
      /\ (code = StatusBadRequest \/ code = StatusNotFound \/ code = StatusMethodNotAllowed))
  \/ resp = {| Status := StatusOK;
               Body := JSON (PList (numbered (placeholders schema) 3 1)) |}
  \/ (exists id,
        resp = {| Status := StatusOK;
                  Body := JSON (PObject (<["id" := VInt id]> (placeholders schema))) |}
        /\ Strconv.minInt <= id <= Strconv.maxInt)
  \/ (exists key idSeg,
        resp = {| Status := StatusOK;
                  Body := JSON (PObject (<[key := VString idSeg]> (placeholders schema))) |}
        /\ (key = "id"
            \/ exists prop, Properties schema !! key = Some prop /\ stringTyped prop)
        /\ idSeg <> EmptyString /\ free "/" idSeg)
  \/ resp = {| Status := StatusOK;
               Body := JSON (PMessage {[ "message" := "Deleted successfully" ]}) |})
  /\ (Status resp = StatusOK <-> exists p, Body resp = JSON p).
Proof.
  intros Hord resp.
  pose proof (answer_cases lowerCase order schema r t Hord) as Hcases. fold resp in Hcases.
  split; [exact Hcases|].
  destruct Hcases as [(code & msg & -> & Hcode)|[->|[(id & -> & _)|[(key & idSeg & -> & _)| ->]]]];
    simpl; split; eauto; try done.
  - intros ->. by destruct Hcode as [?|[?|?]].
  - by intros [p ?].
Qed.

Lemma answer_forms_witness :
  let resp := (catchAllHandler Unicode.latin1 keyOrder (Some userSchema) (request "GET" "/users/42") start).1 in
  Status resp = StatusOK <-> exists p, Body resp = JSON p.
Proof.
  apply (answer_forms Unicode.latin1 keyOrder userSchema (request "GET" "/users/42") start).
  intros k m. reflexivity.
Defined.

Set Warnings "-clear-no-such-hyp".

(** X9. Every object the handler returns, alone or in the list, holds
    every declared property, and holds nothing else but, at most,
    [id]. *)
Theorem answers_hold_the_declared_fields lowerCase order schema r t :
  RangeOrder order ->
  let resp := (catchAllHandler lowerCase order (Some schema) r t).1 in
  (forall obj,
      Body resp = JSON (PObject obj) ->
      dom (Properties schema) ⊆ dom obj
      /\ dom obj ⊆ dom (Properties schema) ∪ {[ "id" ]})
  /\ (forall objs obj,
        Body resp = JSON (PList objs) -> obj ∈ objs ->
        dom obj = dom (Properties schema) ∪ {[ "id" ]}).
Proof.
  intros Hord resp.
  assert (dom (placeholders schema) = dom (Properties schema)) as Hdom
    by (unfold placeholders; apply dom_fmap_L).
  destruct (answer_cases lowerCase order schema r t Hord) as [H|[H|[H|[H|H]]]]; fold resp in H.
  - destruct H as (code & msg & -> & _). by split.
  - rewrite H. split; [done|]. intros objs obj [= <-]. simpl.
    rewrite !elem_of_cons, elem_of_nil. intros [->|[->|[->|[]]]];
      rewrite dom_insert_L, Hdom; set_solver.
  - destruct H as (id & -> & _). split; [|done]. intros obj [= <-].
    rewrite dom_insert_L, Hdom. set_solver.
  - destruct H as (key & idSeg & -> & Hkey & _). split; [|done]. intros obj [= <-].
    rewrite dom_insert_L, Hdom. destruct Hkey as [->|(prop & Hprop & _)]; [set_solver|].
    assert (key ∈ dom (Properties schema)) by (apply elem_of_dom; eauto). set_solver.
  - rewrite H. by split.
Qed.

Lemma answers_hold_the_declared_fields_witness :
  dom (Properties contactSchema) ⊆ dom (<["id" := VInt 1]> (placeholders contactSchema))
  /\ dom (<["id" := VInt 1]> (placeholders contactSchema))
     ⊆ dom (Properties contactSchema) ∪ {[ "id" ]}.
Proof.
  apply (proj1 (answers_hold_the_declared_fields Unicode.latin1 keyOrder contactSchema
                  (request "POST" "/x") start (fun k m => reflexivity _))
           (<["id" := VInt 1]> (placeholders contactSchema))).
  by vm_compute.
Defined.

(** X10. POST looks neither at the path nor at the body: on a loaded
    schema every POST is answered 200 with the placeholders of the
    schema, [id] set to 1 over whatever the schema says of [id], after
    one call of [dummyData]; two POSTs are answered alike. *)
Theorem post_answers_on_every_path lowerCase order schema r t :
  RangeOrder order -> Method r = MethodPost ->
  (exists obj,
      catchAllHandler lowerCase order (Some schema) r t
      = ({| Status := StatusOK; Body := JSON (PObject obj) |}, synthesized 1 t)
      /\ obj !! "id" = Some (VInt 1)
      /\ forall k, k <> "id" ->
           obj !! k = (fun prop => dummyValue (PropertyType prop)) <$> Properties schema !! k)
  /\ forall r', Method r' = MethodPost ->
       catchAllHandler lowerCase order (Some schema) r' t = catchAllHandler lowerCase order (Some schema) r t.
Proof.
  intros Hord Hm. split.
  - eexists. split; [by apply post_any_path|].
    split; [apply lookup_insert_eq|]. intros k Hk.
    rewrite lookup_insert_ne by done. unfold placeholders. apply lookup_fmap.
  - intros r' Hm'. by rewrite !post_any_path.
Qed.

Lemma post_answers_on_every_path_witness :
  catchAllHandler Unicode.latin1 keyOrder (Some userSchema)
    {| Method := "POST"; Path := "/users/1/2"; RequestBody := "{" |} start
  = catchAllHandler Unicode.latin1 keyOrder (Some userSchema) (request "POST" "/users") start.
Proof.
  apply (post_answers_on_every_path Unicode.latin1 keyOrder userSchema (request "POST" "/users") start).
  - intros k m. reflexivity.
  - reflexivity.
  - reflexivity.
Defined.

(** ** Further properties of [uploadHandler] and of the stored schema *)

Lemma storeAfter_upload currentSchema r :
  storeAfter currentSchema (CallUpload r)
  = if decide (Method r = MethodPost) then
      match Json.Decode (RequestBody r) with
      | inr schema => Some schema
      | inl _ => currentSchema
      end
    else currentSchema.
Proof.
  unfold storeAfter, uploadHandler.
  destruct (decide (Method r = MethodPost)) as [Hm|Hm].
  - rewrite decide_False by (intros Hne; by apply Hne).
    by destruct (Json.Decode (RequestBody r)).
  - by rewrite decide_True.
Qed.

(** On a loaded schema the handler never gives the answer it gives
    without one. *)
Lemma loaded_is_not_missing lowerCase order schema r t :
  (catchAllHandler lowerCase order (Some schema) r t).1
  <> {| Status := StatusBadRequest;
        Body := Text "No schema uploaded. Please POST your JSON schema to /upload" |}.
Proof.
  destruct r as [method path body].
  unfold catchAllHandler, encode, single, NotFound, Error, bind, ret. cbn [Method Path]. cbv zeta.
  cbn [listLoop]. unfold bind, ret, dummyData, bind, range, ret.
  repeat (case_decide || case_match); simplify_eq/=; try discriminate.
Qed.

(** X11. Behind any run of calls of the two handlers the stored schema
    is the one of the last POST to [uploadHandler] whose body decoded,
    whatever was stored or uploaded before; with no such call it is the
    schema stored before the run.  A stored schema is never taken away
    again: once one upload has succeeded, no call of [catchAllHandler]
    is answered "No schema uploaded". *)
Theorem stored_schema_is_last_upload lowerCase currentSchema calls :
  storeAfterAll currentSchema calls
  = match lastUploaded calls with
    | Some schema => Some schema
    | None => currentSchema
    end
  /\ (is_Some currentSchema -> is_Some (storeAfterAll currentSchema calls))
  /\ (forall order r t,
        is_Some currentSchema \/ is_Some (lastUploaded calls) ->
        (catchAllHandler lowerCase order (storeAfterAll currentSchema calls) r t).1
        <> {| Status := StatusBadRequest;
              Body := Text "No schema uploaded. Please POST your JSON schema to /upload" |}).
Proof.
  assert (forall cur, storeAfterAll cur calls
                      = match lastUploaded calls with
                        | Some schema => Some schema
                        | None => cur
                        end) as Hlast.
  { induction calls as [|c calls IH]; intros cur; [done|].
    change (storeAfterAll cur (c :: calls)) with (storeAfterAll (storeAfter cur c) calls).
    rewrite IH. simpl. destruct (lastUploaded calls); [done|].
    destruct c as [r|r]; [|done]. rewrite storeAfter_upload.
    case_decide; [|done]. by destruct (Json.Decode (RequestBody r)). }
  split; [apply Hlast|]. split.
  - intros [schema ->]. rewrite Hlast. by destruct (lastUploaded calls).
  - intros order r t Hsome.
    assert (is_Some (storeAfterAll currentSchema calls)) as [schema ->].
    { rewrite Hlast. destruct (lastUploaded calls); [done|].
      destruct Hsome as [?|[? ?]]; done. }
    apply loaded_is_not_missing.
Qed.

Section UploadFacts.

Import Json.

Lemma blank_skipSpace s : blank s -> skipSpace s = EmptyString.
Proof.
  induction s as [|c s IH]; simpl; [done|]. intros [-> Hs]. by apply IH.
Qed.

Lemma skipSpace_blank_app ws s : blank ws -> skipSpace (ws +:+ s) = skipSpace s.
Proof.
  induction ws as [|c ws IH]; [done|]. intros [Hc Hws].
  rewrite append_cons. simpl. rewrite Hc. by apply IH.
Qed.

Lemma length_append (s t : string) :
  String.length (s +:+ t) = (String.length s + String.length t)%nat.
Proof.
  induction s as [|c s IH]; [done|]. rewrite append_cons. simpl. by rewrite IH.
Qed.

(** The scanner looks at its input behind the white space only. *)
Lemma scanValue_skipSpace fuel depth s s' :
  skipSpace s = skipSpace s' -> scanValue (S fuel) depth s = scanValue (S fuel) depth s'.
Proof. intros E. cbn [scanValue]. by rewrite E. Qed.

(** X12. White space in front of the body of an upload changes
    nothing: the answer and the stored schema are those of the body
    without it. *)
Theorem upload_skips_leading_space currentSchema ws body :
  blank ws ->
  uploadHandler currentSchema (upload (ws +:+ body))
  = uploadHandler currentSchema (upload body).
Proof.
  intros Hws. unfold uploadHandler. cbn [Method RequestBody upload].
  case_decide; [done|].
  assert (Decode (ws +:+ body) = Decode body) as ->; [|done].
  unfold Decode, readValue. rewrite skipSpace_blank_app by done.
  destruct (skipSpace body) as [|c rest] eqn:E; [done|].
  rewrite (scanValue_skipSpace _ _ (ws +:+ body) body)
    by by rewrite skipSpace_blank_app.
  rewrite (proj1 (scanValue_fuel (S (2 * String.length (ws +:+ body)))
                    (S (2 * String.length body)) 0%N body)); [done|..].
  - rewrite length_append. lia.
  - lia.
Qed.

Lemma upload_skips_leading_space_witness :
  uploadHandler None (upload (" " +:+ "{}")) = uploadHandler None (upload "{}").
Proof.
  apply upload_skips_leading_space. by vm_compute.
Defined.

(** X13. A schema must be a JSON object (or [null]).  An upload whose
    body is empty or all white space is answered 400 with [io.EOF]; an
    upload whose body starts, behind white space, with any byte but
    an opening brace or the [n] of [null] is answered 400; both leave
    the stored schema as it is. *)
Theorem upload_rejects_what_is_no_object currentSchema body :
  (blank body ->
     uploadHandler currentSchema (upload body)
     = ({| Status := StatusBadRequest; Body := TextErr "Invalid JSON schema: " EOF |},
        currentSchema))
  /\ (forall c rest,
        skipSpace body = String c rest -> c <> "{"%char -> c <> "n"%char ->
        exists err,
          uploadHandler currentSchema (upload body)
          = ({| Status := StatusBadRequest; Body := TextErr "Invalid JSON schema: " err |},
             currentSchema)).
Proof.
  split.
  - intros Hblank. unfold uploadHandler. cbn [Method RequestBody upload].
    rewrite decide_False by (by intros []).
    unfold Decode, readValue. by rewrite blank_skipSpace.
  - intros c rest Hskip Hbrace Hn.
    assert (exists err, Decode body = inl err) as [err Herr].
    { unfold Decode, readValue. rewrite Hskip. cbn [scanValue]. rewrite Hskip.
      rewrite decide_False by done.
      repeat (case_decide || case_match); subst; simplify_eq/=; eauto;
        repeat match goal with
          | H : map_result _ _ = Ok _ _ |- _ =>
              apply map_result_Ok in H as (? & _ & ->)
          end;
        simplify_eq/=. }
    exists err. unfold uploadHandler. cbn [Method RequestBody upload].
    rewrite decide_False by (by intros []). by rewrite Herr.
Qed.

Lemma upload_rejects_what_is_no_object_witness :
  exists err,
    uploadHandler (Some userSchema) (upload " [1, 2]")
    = ({| Status := StatusBadRequest; Body := TextErr "Invalid JSON schema: " err |},
       Some userSchema).
Proof.
  apply (proj2 (upload_rejects_what_is_no_object (Some userSchema) " [1, 2]")
           "["%char "1, 2]").
  - reflexivity.
  - discriminate.
  - discriminate.
Defined.

End UploadFacts.

(** ** Further properties of [catchAllHandler]: letter case, and DELETE *)

(** X14. Routes are in lower case and are compared byte by byte: a
    GET, PUT or DELETE whose first path segment holds an upper-case
    ASCII letter is answered 404, whatever the title of the schema.
    For a title that is not ASCII this rests on the table of Unicode,
    in which no rune has an upper-case ASCII letter as its lower
    case. *)
Theorem upper_case_path_is_not_found lowerCase order schema r seg rest t :
  lowerCaseTable lowerCase \/ Strings.isASCII (Title schema) = true ->
  Method r = MethodGet \/ Method r = MethodPut \/ Method r = MethodDelete ->
  segmentsOf (Path r) = seg :: rest ->
  ~ lowerOnly seg ->
  catchAllHandler lowerCase order (Some schema) r t
  = ({| Status := StatusNotFound; Body := Text "404 page not found" |}, t).
Proof.
  intros Htable Hm Hseg Hupper.
  assert (seg <> entityOf lowerCase schema) as Hne.
  { intros ->. apply Hupper. unfold entityOf. rewrite lowerOnly_app.
    split; [by apply ToLower_lowerOnly|]. split; [|done].
    vm_compute. intros [H1 H2]. first [by apply H1 | by apply H2]. }
  apply not_found_off_route; [done|..]; intros; rewrite Hseg; congruence.
Qed.

Lemma upper_case_path_is_not_found_witness :
  catchAllHandler Unicode.latin1 keyOrder (Some elanSchema) (request "GET" "/Elans") start
  = ({| Status := 404; Body := Text "404 page not found" |}, start).
Proof.
  apply (upper_case_path_is_not_found Unicode.latin1 keyOrder elanSchema
           (request "GET" "/Elans") "Elans" []).
  - left. apply latin1_table.
  - left. reflexivity.
  - reflexivity.
  - vm_compute. intros [H _]. apply H. split; discriminate.
Defined.

(** X15. DELETE never synthesizes: whatever is stored, whatever the
    path and the ID, a DELETE runs no [range] loop and calls
    [dummyData] not once. *)
Theorem delete_never_synthesizes lowerCase order currentSchema r t :
  Method r = MethodDelete ->
  (catchAllHandler lowerCase order currentSchema r t).2 = t.
Proof.
  intros Hm. destruct r as [method path body]. simpl in Hm. subst method.
  destruct currentSchema as [schema|]; [|done].
  enter path schema. unfold NotFound, Error, ret.
  repeat case_match; simplify_eq/=; done.
Qed.

Lemma delete_never_synthesizes_witness :
  (catchAllHandler Unicode.latin1 keyOrder (Some userSchema) (request "DELETE" "/users/abc") start).2
  = start.
Proof.
  apply delete_never_synthesizes. reflexivity.
Defined.
